(** * mailpy-monitor: the alarm entry of [app/commons/entities.py]

    A shallow embedding of [Group], [DummyPV] and [Entry] (construction,
    [_find_next_level], [handle_condition], [check_alarms], [trigger]) and
    the properties of the alarm state machine: construction, the guards, the
    step levels, the hand-over to the queue, and concurrent callbacks.

    Python values are modelled as follows.
    - [float] is the binary64 primitive type of the kernel; [a < b] is
      [PrimFloat.ltb a b], [a >= b] is [PrimFloat.leb b a].
    - [int] is [Z]; list subscripts follow Python (negative subscripts count
      from the end, anything else out of range raises [IndexError]).
    - [str] is [string].
    - An attribute that is only assigned on some paths of [__init__] is an
      [option] field; reading it while unassigned raises [AttributeError].
    - A method that mutates [self] and may raise is a computation
      [M S A := S -> outcome A * S]: the state reached when an exception is
      raised is kept, as in Python.
    - [time.time()] and the state of the external PV are arguments of the
      call that reads them.
    - The calls of the logger are left out. Their messages are formatted
      with [Entry.__str__], which reads [self._pv]; every entry that
      [__init__] has returned has it. Where [__str__] is evaluated for an
      exception message, inside [__init__], it is modelled. *)

From Stdlib Require Import ZArith List String Ascii Bool Lia Floats.
Import ListNotations.

Local Open Scope string_scope.
Local Open Scope Z_scope.

Set Warnings "-inexact-float".

(** ** Python data *)

(** Comparison of floats, written as in the source. *)
Definition flt (a b : float) : bool := PrimFloat.ltb a b.
Definition fgt (a b : float) : bool := PrimFloat.ltb b a.
Definition fge (a b : float) : bool := PrimFloat.leb b a.

(** [l[i]] for a Python list: [None] stands for [IndexError]. *)
Definition list_index {A : Type} (l : list A) (i : Z) : option A :=
  let n := Z.of_nat (List.length l) in
  if (0 <=? i) && (i <? n) then nth_error l (Z.to_nat i)
  else if (- n <=? i) && (i <? 0) then nth_error l (Z.to_nat (n + i))
  else None.

(** [s.split(sep)] for a one-character separator: always at least one part. *)
Fixpoint str_split (sep : ascii) (s : string) : list string :=
  match s with
  | EmptyString => [EmptyString]
  | String c rest =>
      if Ascii.eqb c sep then EmptyString :: str_split sep rest
      else match str_split sep rest with
           | part :: parts => String c part :: parts
           | [] => [String c EmptyString]
           end
  end.

(** Truth value of a [str]: the empty string is false. *)
Definition str_truthy (s : string) : bool :=
  match s with EmptyString => false | String _ _ => true end.

(** [str(b)] for a [bool]. *)
Definition str_of_bool (b : bool) : string := if b then "True" else "False".

(** The exceptions that occur in the module. *)
Inductive exn : Type :=
| AttributeError (attr : string)
| IndexError
| ValueError
| EntryException (msg : string)
| Full.

Inductive outcome (A : Type) : Type :=
| Return (a : A)
| Raise (e : exn).
Arguments Return {A} a.
Arguments Raise {A} e.

(** Python's [None] as the result of a procedure. *)
Inductive NoneType : Type := PyNone.

(** ** Computations over a mutable object *)

Definition M (S A : Type) : Type := S -> outcome A * S.

Definition ret {S A : Type} (a : A) : M S A := fun s => (Return a, s).

Definition raise {S A : Type} (e : exn) : M S A := fun s => (Raise e, s).

Definition bind {S A B : Type} (m : M S A) (k : A -> M S B) : M S B :=
  fun s =>
    match m s with
    | (Return a, s') => k a s'
    | (Raise e, s') => (Raise e, s')
    end.

Definition get {S : Type} : M S S := fun s => (Return s, s).

Definition modify {S : Type} (f : S -> S) : M S NoneType :=
  fun s => (Return PyNone, f s).

(** A value that may be missing, e.g. a subscript or an unassigned attribute. *)
Definition expect {S A : Type} (e : exn) (o : option A) : M S A :=
  match o with
  | Some a => ret a
  | None => raise e
  end.

(** [try: body  except Full: pass] *)
Definition except_Full {S : Type} (body : M S NoneType) : M S NoneType :=
  fun s =>
    match body s with
    | (Raise Full, s') => (Return PyNone, s')
    | r => r
    end.

(** [try: body  finally: return event], where [body] computes [event]
    (initially [None]): the [return] in the [finally] clause discards any
    exception in flight. *)
Definition finally_return {S A : Type} (body : M S (option A)) : M S (option A) :=
  fun s =>
    match body s with
    | (Raise _, s') => (Return None, s')
    | r => r
    end.

(** [a and b], where [b] is evaluated only when [a] is true. *)
Definition andM {S : Type} (a b : M S bool) : M S bool :=
  bind a (fun x => if x then b else ret false).

(** [a or b], where [b] is evaluated only when [a] is false. *)
Definition orM {S : Type} (a b : M S bool) : M S bool :=
  bind a (fun x => if x then ret true else b).

(** [if c: body] without [else]. *)
Definition when {S : Type} (c : bool) (body : M S NoneType) : M S NoneType :=
  if c then body else ret PyNone.

Declare Scope py_scope.
Delimit Scope py_scope with py.
Notation "x <- m ;; k" := (bind m (fun x => k))
  (at level 61, m at next level, right associativity) : py_scope.
Notation "m ;; k" := (bind m (fun _ => k))
  (at level 61, right associativity) : py_scope.
Local Open Scope py_scope.

(** ** The Python runtime

    A model of the built-in functions that the module calls, for ASCII
    strings: [str.strip], [str.lower], [float(str)] (correctly rounded),
    [repr(float)] (shortest digits that read back) and the format [.4]. The
    properties of the entry are proved for any such functions; this model
    is the one at which they are instantiated. *)

Module CPython.

Definition code (c : ascii) : Z := Z.of_nat (nat_of_ascii c).

(** [c.isspace()] for an ASCII character. *)
Definition is_space (c : ascii) : bool :=
  ((9 <=? code c) && (code c <=? 13)) || ((28 <=? code c) && (code c <=? 32)).

Fixpoint lstrip (s : string) : string :=
  match s with
  | String c rest => if is_space c then lstrip rest else s
  | EmptyString => s
  end.

Fixpoint rstrip (s : string) : string :=
  match s with
  | EmptyString => EmptyString
  | String c rest =>
      match rstrip rest with
      | EmptyString => if is_space c then EmptyString else String c EmptyString
      | rest' => String c rest'
      end
  end.

(** [s.strip()] *)
Definition strip (s : string) : string := rstrip (lstrip s).

(** The white space that [float] skips at the two ends of an ASCII string:
    the characters of C's [isspace], which leave out the separators 28 to
    31 that [str.strip] removes. *)
Definition is_float_space (c : ascii) : bool :=
  ((9 <=? code c) && (code c <=? 13)) || (code c =? 32).

Fixpoint float_lstrip (s : string) : string :=
  match s with
  | String c rest => if is_float_space c then float_lstrip rest else s
  | EmptyString => s
  end.

Fixpoint float_rstrip (s : string) : string :=
  match s with
  | EmptyString => EmptyString
  | String c rest =>
      match float_rstrip rest with
      | EmptyString => if is_float_space c then EmptyString else String c EmptyString
      | rest' => String c rest'
      end
  end.

Definition float_strip (s : string) : string := float_rstrip (float_lstrip s).

Definition lower_char (c : ascii) : ascii :=
  if (65 <=? code c) && (code c <=? 90)
  then ascii_of_nat (nat_of_ascii c + 32) else c.

(** [s.lower()] *)
Fixpoint lower (s : string) : string :=
  match s with
  | EmptyString => EmptyString
  | String c rest => String (lower_char c) (lower rest)
  end.

(** The double nearest to [n / d] (ties to even), for [0 <= n] and [0 < d]:
    the quotient is computed with more than 64 bits and a sticky bit. *)
Definition of_ratio (negative : bool) (n d : Z) : float :=
  if n =? 0 then (if negative then neg_zero else zero)
  else
    let s := Z.max 0 (66 + Z.log2 d - Z.log2 n) in
    let q := (n * 2 ^ s) / d in
    let sticky := if (n * 2 ^ s) mod d =? 0 then 0 else 1 in
    let m := 2 * q + sticky in
    SF2Prim (binary_normalize prec emax (if negative then - m else m) (- s - 1) false).

(** The double nearest to [m * 10 ^ e]. *)
Definition of_decimal (negative : bool) (m e : Z) : float :=
  if 0 <=? e then of_ratio negative (m * 10 ^ e) 1
  else of_ratio negative m (10 ^ (- e)).

Definition digit_of (c : ascii) : option Z :=
  if (48 <=? code c) && (code c <=? 57) then Some (code c - 48) else None.

(** The rest of a digit part, [(["_"] digit)*]: the value and the number
    of the digits read so far, and what follows them. *)
Fixpoint digits_rest (s : string) (acc count : Z) : Z * Z * string :=
  match s with
  | String c rest =>
      match digit_of c with
      | Some d => digits_rest rest (10 * acc + d) (count + 1)
      | None =>
          if Ascii.eqb c "_" then
            match rest with
            | String c2 rest2 =>
                match digit_of c2 with
                | Some d => digits_rest rest2 (10 * acc + d) (count + 1)
                | None => (acc, count, s)
                end
            | EmptyString => (acc, count, s)
            end
          else (acc, count, s)
      end
  | EmptyString => (acc, count, s)
  end.

(** [digit (["_"] digit)*], when there is one at the head of [s]. *)
Definition digitpart (s : string) : option (Z * Z * string) :=
  match s with
  | String c rest =>
      match digit_of c with
      | Some d => Some (digits_rest rest d 1)
      | None => None
      end
  | EmptyString => None
  end.

Definition sign_of (s : string) : bool * string :=
  match s with
  | String "-" rest => (true, rest)
  | String "+" rest => (false, rest)
  | _ => (false, s)
  end.

(** [("e" | "E") [sign] digitpart] or nothing, up to the end of the string. *)
Definition exponent (s : string) : option Z :=
  match s with
  | EmptyString => Some 0
  | String c rest =>
      if Ascii.eqb (lower_char c) "e" then
        let (negative, rest') := sign_of rest in
        match digitpart rest' with
        | Some (x, _, EmptyString) => Some (if negative then - x else x)
        | _ => None
        end
      else None
  end.

(** [number [exponent]]: the mantissa and the decimal exponent. *)
Definition floatnumber (s : string) : option (Z * Z) :=
  let '(i, icount, rest) :=
    match digitpart s with
    | Some r => r
    | None => (0, 0, s)
    end in
  let '(f, fcount, rest') :=
    match rest with
    | String "." after =>
        match digitpart after with
        | Some r => r
        | None => (0, 0, after)
        end
    | _ => (0, 0, rest)
    end in
  if icount + fcount =? 0 then None
  else
    match exponent rest' with
    | Some x => Some (i * 10 ^ fcount + f, x - fcount)
    | None => None
    end.

(** [float(s)] for an ASCII string. *)
Definition float_of_str (s : string) : option float :=
  let (negative, body) := sign_of (float_strip s) in
  let word := lower body in
  if ((word =? "inf") || (word =? "infinity"))%string
  then Some (if negative then neg_infinity else infinity)
  else if (word =? "nan")%string then Some nan
  else
    match floatnumber body with
    | Some (m, e) => Some (of_decimal negative m e)
    | None => None
    end.


(** Floats to text. *)

(** A finite positive double as a ratio of integers. *)
Definition ratio_of (m : positive) (e : Z) : Z * Z :=
  if 0 <=? e then (Z.pos m * 2 ^ e, 1) else (Z.pos m, 2 ^ (- e)).

(** [10 ^ k <= n / d] *)
Definition pow10_le (k n d : Z) : bool :=
  if 0 <=? k then d * 10 ^ k <=? n else d <=? n * 10 ^ (- k).

(** The position of the decimal point: [10 ^ (k - 1) <= n / d < 10 ^ k]. *)
Fixpoint decpt_from (fuel : nat) (k n d : Z) : Z :=
  match fuel with
  | O => k
  | S fuel' =>
      if pow10_le k n d then decpt_from fuel' (k + 1) n d
      else if pow10_le (k - 1) n d then k
      else decpt_from fuel' (k - 1) n d
  end.

Definition decpt (n d : Z) : Z :=
  decpt_from 8 ((Z.log2 n - Z.log2 d) * 30103 / 100000) n d.

(** [n / d] scaled to [p] digits before the point: quotient, remainder and
    divisor. *)
Definition scaled (p k n d : Z) : Z * Z * Z :=
  let n' := if 0 <=? p - k then n * 10 ^ (p - k) else n in
  let d' := if 0 <=? p - k then d else d * 10 ^ (k - p) in
  (n' / d', n' mod d', d').

(** [p] significant digits of [n / d], correctly rounded (ties to even),
    with the position of the decimal point. *)
Definition round_digits (p n d : Z) : Z * Z :=
  let k := decpt n d in
  let '(q, r, d') := scaled p k n d in
  let up := if 2 * r <? d' then false
            else if d' <? 2 * r then true
            else Z.odd q in
  (if up then q + 1 else q, k).

(** The shortest digits that read back as the double [x = n / d], the
    closest to it when there are several (the [repr] of CPython). *)
Fixpoint shortest_from (fuel : nat) (p : Z) (x : float) (n d : Z) : Z * Z * Z :=
  let k := decpt n d in
  let '(q, r, d') := scaled p k n d in
  let back c := PrimFloat.eqb (of_decimal false c (k - p)) x in
  let lo_first := if 2 * r <? d' then true
                  else if d' <? 2 * r then false
                  else Z.even q in
  let first := if lo_first then q else q + 1 in
  let second := if lo_first then q + 1 else q in
  match fuel with
  | O => (first, p, k)
  | S fuel' =>
      if back first then (first, p, k)
      else if back second then (second, p, k)
      else shortest_from fuel' (p + 1) x n d
  end.

Fixpoint digits_from (fuel : nat) (n : Z) (acc : string) : string :=
  match fuel with
  | O => acc
  | S fuel' =>
      let acc' := String (ascii_of_nat (Z.to_nat (48 + n mod 10))) acc in
      if n <? 10 then acc' else digits_from fuel' (n / 10) acc'
  end.

(** [str(n)] for [0 <= n]. *)
Definition str_of_Z (n : Z) : string :=
  digits_from (S (Z.to_nat (Z.log2 n))) n EmptyString.

Fixpoint strip_zeros_rev (s : list ascii) : list ascii :=
  match s with
  | "0"%char :: rest => strip_zeros_rev rest
  | _ => s
  end.

(** The digits without trailing zeros (at least one digit is kept). *)
Definition strip_zeros (s : string) : string :=
  match rev (strip_zeros_rev (rev (list_ascii_of_string s))) with
  | [] => "0"
  | l => string_of_list_ascii l
  end.

Fixpoint zeros (n : nat) : string :=
  match n with O => EmptyString | S n' => String "0" (zeros n') end.

Fixpoint take (n : nat) (s : string) : string :=
  match n, s with
  | S n', String c rest => String c (take n' rest)
  | _, _ => EmptyString
  end.

Fixpoint drop (n : nat) (s : string) : string :=
  match n, s with
  | S n', String _ rest => drop n' rest
  | _, _ => s
  end.

(** The layout of CPython for digits [q] (a [p]-digit number) with the
    decimal point at [k]: scientific when [k <= -4] or [k > limit], else
    fixed with at least one digit after the point. *)
Definition layout (limit : Z) (q p k : Z) : string :=
  let k := k + (Z.of_nat (String.length (str_of_Z q)) - p) in
  let ds := strip_zeros (str_of_Z q) in
  let len := Z.of_nat (String.length ds) in
  if (k <=? -4) || (limit <? k) then
    let x := k - 1 in
    let xs := str_of_Z (Z.abs x) in
    take 1 ds
    ++ (if len =? 1 then "" else "." ++ drop 1 ds)
    ++ "e" ++ (if x <? 0 then "-" else "+")
    ++ (if Z.abs x <? 10 then "0" else "") ++ xs
  else if k <=? 0 then "0." ++ zeros (Z.to_nat (- k)) ++ ds
  else if len <=? k then ds ++ zeros (Z.to_nat (k - len)) ++ ".0"
  else take (Z.to_nat k) ds ++ "." ++ drop (Z.to_nat k) ds.

Definition format_with (digits : float -> Z -> Z -> Z * Z * Z) (limit : Z)
           (x : float) : string :=
  match Prim2SF x with
  | S754_nan => "nan"
  | S754_infinity s => if s then "-inf" else "inf"
  | S754_zero s => if s then "-0.0" else "0.0"
  | S754_finite s m e =>
      let (n, d) := ratio_of m e in
      let '(q, p, k) := digits (PrimFloat.abs x) n d in
      (if s then "-" else "") ++ layout limit q p k
  end.

(** [repr(x)], which is also [str(x)] and ["{}".format(x)]. *)
Definition repr (x : float) : string :=
  format_with (shortest_from 16 1) 16 x.

(** ["{:.4}".format(x)]: four significant digits, in the general format
    with at least one digit after the point. *)
Definition format_4 (x : float) : string :=
  format_with (fun _ n d => let (q, k) := round_digits 4 n d in (q, 4, k)) 3 x.

End CPython.

(** ** What the module imports *)

(** Functions of the Python runtime that the module calls; the model is
    parametric in them. [float_of_str s = None] stands for [float(s)]
    raising [ValueError]. *)
Record Builtins : Type := {
  float_of_str : string -> option float;  (* float(s) *)
  str_lower : string -> string;           (* s.lower() *)
  str_strip : string -> string;           (* s.strip() *)
  str_of_float : float -> string;         (* "{}".format(x) *)
  format_4 : float -> string              (* "{:.4}".format(x) *)
}.

Definition cpython : Builtins :=
  {| float_of_str := CPython.float_of_str;
     str_lower := CPython.lower;
     str_strip := CPython.strip;
     str_of_float := CPython.repr;
     format_4 := CPython.format_4 |}.

(** Modelled from the spec: the class [Condition] (app/commons/condition.py)
    is not among the sources. The spec names a closed set of four supported
    conditions and a fifth, [DecreasingStep], that is recognised by name but
    unsupported; the constants are strings, compared with [self.condition]. *)
Record ConditionNames : Type := {
  OutOfRange : string;
  SuperiorThan : string;
  InferiorThan : string;
  IncreasingStep : string;
  DecreasingStep : string
}.

Definition condition_names (C : ConditionNames) : list string :=
  [OutOfRange C; SuperiorThan C; InferiorThan C; IncreasingStep C; DecreasingStep C].

(** Modelled from the spec: the class [EmailEvent] (app/commons/event.py) is
    not among the sources. The spec describes an immutable value object with
    the attributes below, which are the keyword arguments of the constructor
    call in [handle_condition]; an event is a true value in [if event:]. *)
Record EmailEvent : Type := {
  ev_pvname : string;
  ev_specified_value_message : string;
  ev_unit : string;
  ev_warning : string;
  ev_subject : string;
  ev_emails : string;
  ev_condition : string;
  ev_value_measured : string
}.

(** [sms_queue]: a bounded FIFO queue shared with the dispatcher. Only the
    non-blocking [put] is used by the module. *)
Record Queue : Type := {
  items : list EmailEvent;
  maxsize : nat
}.

(** [q.put(ev, block=False, timeout=None)] *)
Definition put_nowait (ev : EmailEvent) : M Queue NoneType :=
  fun q =>
    if (List.length (items q) <? maxsize q)%nat
    then (Return PyNone, {| items := items q ++ [ev]; maxsize := maxsize q |})
    else (Raise Full, q).

(** ** Group *)

Record Group : Type := {
  name : string;
  _enabled : bool
}.

(** The property [enabled] (getter and setter, both under the group's lock). *)
Definition enabled (g : Group) : bool := _enabled g.

Definition set_enabled (b : bool) (g : Group) : Group :=
  {| name := name g; _enabled := b |}.

Definition dquote : string := String "034"%char EmptyString.

Definition Group__str__ (g : Group) : string :=
  "<Group=" ++ dquote ++ name g ++ dquote ++ " enabled=" ++ str_of_bool (enabled g) ++ ">".

(** ** The PV of an entry *)

(** [epics.PV] is an external object; of it the module reads [pvname] and
    [connected]. [DummyPV] has [pvname] only. *)
Inductive PV : Type :=
| EpicsPV (pvname : string)
| DummyPV (pvname : string).

Definition pvname (pv : PV) : string :=
  match pv with EpicsPV n => n | DummyPV n => n end.

(** [pv.connected], where [connected] is what the external PV reports. *)
Definition pv_connected (connected : bool) (pv : PV) : option bool :=
  match pv with
  | EpicsPV _ => Some connected
  | DummyPV _ => None
  end.

(** ** Entry *)

Record Entry : Type := {
  _pv : option PV;
  _id : option string;
  condition : string;
  alarm_values : string;
  unit : string;
  warning_message : string;
  subject : string;
  email_timeout : float;
  emails : string;
  group : Group;
  step_level : Z;
  step_values : list float;
  last_event_time : float;
  alarm_min : option float;
  alarm_max : option float;
  min_level : option Z;
  max_level : option Z
}.

Definition set__pv (v : PV) (e : Entry) : Entry :=
  {| _pv := Some v; _id := _id e; condition := condition e;
     alarm_values := alarm_values e; unit := unit e;
     warning_message := warning_message e; subject := subject e;
     email_timeout := email_timeout e; emails := emails e; group := group e;
     step_level := step_level e; step_values := step_values e;
     last_event_time := last_event_time e; alarm_min := alarm_min e;
     alarm_max := alarm_max e; min_level := min_level e;
     max_level := max_level e |}.

Definition set_group (v : Group) (e : Entry) : Entry :=
  {| _pv := _pv e; _id := _id e; condition := condition e;
     alarm_values := alarm_values e; unit := unit e;
     warning_message := warning_message e; subject := subject e;
     email_timeout := email_timeout e; emails := emails e; group := v;
     step_level := step_level e; step_values := step_values e;
     last_event_time := last_event_time e; alarm_min := alarm_min e;
     alarm_max := alarm_max e; min_level := min_level e;
     max_level := max_level e |}.

Definition set_step_level (v : Z) (e : Entry) : Entry :=
  {| _pv := _pv e; _id := _id e; condition := condition e;
     alarm_values := alarm_values e; unit := unit e;
     warning_message := warning_message e; subject := subject e;
     email_timeout := email_timeout e; emails := emails e; group := group e;
     step_level := v; step_values := step_values e;
     last_event_time := last_event_time e; alarm_min := alarm_min e;
     alarm_max := alarm_max e; min_level := min_level e;
     max_level := max_level e |}.

Definition set_step_values (v : list float) (e : Entry) : Entry :=
  {| _pv := _pv e; _id := _id e; condition := condition e;
     alarm_values := alarm_values e; unit := unit e;
     warning_message := warning_message e; subject := subject e;
     email_timeout := email_timeout e; emails := emails e; group := group e;
     step_level := step_level e; step_values := v;
     last_event_time := last_event_time e; alarm_min := alarm_min e;
     alarm_max := alarm_max e; min_level := min_level e;
     max_level := max_level e |}.

Definition set_last_event_time (v : float) (e : Entry) : Entry :=
  {| _pv := _pv e; _id := _id e; condition := condition e;
     alarm_values := alarm_values e; unit := unit e;
     warning_message := warning_message e; subject := subject e;
     email_timeout := email_timeout e; emails := emails e; group := group e;
     step_level := step_level e; step_values := step_values e;
     last_event_time := v; alarm_min := alarm_min e;
     alarm_max := alarm_max e; min_level := min_level e;
     max_level := max_level e |}.

Definition set_alarm_min (v : float) (e : Entry) : Entry :=
  {| _pv := _pv e; _id := _id e; condition := condition e;
     alarm_values := alarm_values e; unit := unit e;
     warning_message := warning_message e; subject := subject e;
     email_timeout := email_timeout e; emails := emails e; group := group e;
     step_level := step_level e; step_values := step_values e;
     last_event_time := last_event_time e; alarm_min := Some v;
     alarm_max := alarm_max e; min_level := min_level e;
     max_level := max_level e |}.

Definition set_alarm_max (v : float) (e : Entry) : Entry :=
  {| _pv := _pv e; _id := _id e; condition := condition e;
     alarm_values := alarm_values e; unit := unit e;
     warning_message := warning_message e; subject := subject e;
     email_timeout := email_timeout e; emails := emails e; group := group e;
     step_level := step_level e; step_values := step_values e;
     last_event_time := last_event_time e; alarm_min := alarm_min e;
     alarm_max := Some v; min_level := min_level e;
     max_level := max_level e |}.

Definition set_min_level (v : Z) (e : Entry) : Entry :=
  {| _pv := _pv e; _id := _id e; condition := condition e;
     alarm_values := alarm_values e; unit := unit e;
     warning_message := warning_message e; subject := subject e;
     email_timeout := email_timeout e; emails := emails e; group := group e;
     step_level := step_level e; step_values := step_values e;
     last_event_time := last_event_time e; alarm_min := alarm_min e;
     alarm_max := alarm_max e; min_level := Some v;
     max_level := max_level e |}.

Definition set_max_level (v : Z) (e : Entry) : Entry :=
  {| _pv := _pv e; _id := _id e; condition := condition e;
     alarm_values := alarm_values e; unit := unit e;
     warning_message := warning_message e; subject := subject e;
     email_timeout := email_timeout e; emails := emails e; group := group e;
     step_level := step_level e; step_values := step_values e;
     last_event_time := last_event_time e; alarm_min := alarm_min e;
     alarm_max := alarm_max e; min_level := min_level e;
     max_level := Some v |}.

(** Reading an attribute of [self] that some paths leave unassigned. *)
Definition getattr {A : Type} (attr : string) (field : Entry -> option A) : M Entry A :=
  fun self => expect (AttributeError attr) (field self) self.

(** The arguments of [Entry(...)]; [sms_queue] is a reference to the shared
    queue, which is part of the [World] below. *)
Record EntryArgs : Type := {
  arg_pvname : string;
  arg_emails : string;
  arg_condition : string;
  arg_alarm_values : string;
  arg_unit : string;
  arg_warning_message : string;
  arg_subject : string;
  arg_email_timeout : float;
  arg_group : Group;
  arg__id : option string;
  arg_dummy : bool
}.

(** An entry together with the queue it posts to. *)
Record World : Type := {
  entry : Entry;
  sms_queue : Queue
}.

Definition on_entry {A : Type} (m : M Entry A) : M World A :=
  fun w =>
    let (r, e') := m (entry w) in
    (r, {| entry := e'; sms_queue := sms_queue w |}).

Definition on_queue {A : Type} (m : M Queue A) : M World A :=
  fun w =>
    let (r, q') := m (sms_queue w) in
    (r, {| entry := entry w; sms_queue := q' |}).

Module Import Model.

Section EntryModel.

Variable py : Builtins.
Variable Condition : ConditionNames.

(** The exception that [EmailEvent(...)] raises on these arguments, if it
    rejects them. *)
Variable EmailEvent_error : EmailEvent -> option exn.

Definition _EmailEvent (args : EmailEvent) : M Entry EmailEvent :=
  match EmailEvent_error args with
  | None => ret args
  | Some x => raise x
  end.

Definition str_of_id (i : option string) : string :=
  match i with Some s => s | None => "None" end.

(** [Entry.__str__]: reads [self._pv]. *)
Definition Entry__str__ : M Entry string :=
  self <- get ;;
  pv <- getattr "_pv" _pv ;;
  ret ("<Entry=" ++ str_of_id (_id self)
       ++ " pvname=" ++ dquote ++ pvname pv ++ dquote
       ++ " group=" ++ Group__str__ (group self)
       ++ " condition=" ++ dquote ++ condition self ++ dquote
       ++ " alarm_values=" ++ alarm_values self
       ++ " emails=" ++ emails self ++ dquote ++ ">").

(** [float(s)] *)
Definition to_float (s : string) : M Entry float :=
  expect ValueError (float_of_str py s).

Definition _init_out_of_range : M Entry NoneType :=
  self <- get ;;
  match str_split ":" (alarm_values self) with
  | [_min; _max] =>
      lo <- to_float _min ;;
      modify (set_alarm_min lo) ;;
      hi <- to_float _max ;;
      modify (set_alarm_max hi) ;;
      if fge lo hi then
        pv <- getattr "_pv" _pv ;;
        raise (EntryException
                 ("Cannot create entry for " ++ pvname pv ++ " with values "
                  ++ alarm_values self ++ ". Min must be lesser than max"))
      else ret PyNone
  | _ => raise ValueError
  end.

Definition _init_superior_than : M Entry NoneType :=
  self <- get ;;
  hi <- to_float (alarm_values self) ;;
  modify (set_alarm_max hi).

Definition _init_inferior_than : M Entry NoneType :=
  self <- get ;;
  lo <- to_float (alarm_values self) ;;
  modify (set_alarm_min lo).

(** [[float(val) for val in parts]] *)
Fixpoint floats_of (parts : list string) : M Entry (list float) :=
  match parts with
  | [] => ret []
  | val :: rest =>
      x <- to_float val ;;
      xs <- floats_of rest ;;
      ret (x :: xs)
  end.

(** The loop of [_init_increasing_step] over [self.step_values[1:]]. *)
Fixpoint check_sorted (s : float) (rest : list float) : M Entry NoneType :=
  match rest with
  | [] => ret PyNone
  | v :: rest' =>
      if fge s v then
        self <- get ;;
        pv <- getattr "_pv" _pv ;;
        raise (EntryException
                 ("Failed to crate entry for " ++ pvname pv ++ ", step values "
                  ++ alarm_values self ++ " are not sorted"))
      else check_sorted v rest'
  end.

Definition _init_increasing_step : M Entry NoneType :=
  modify (set_step_level 0) ;;
  self <- get ;;
  vals <- floats_of (str_split ":" (alarm_values self)) ;;
  modify (set_step_values vals) ;;
  s <- expect IndexError (list_index vals 0) ;;
  check_sorted s (tl vals) ;;
  modify (set_min_level 0) ;;
  modify (set_max_level (Z.of_nat (List.length vals))).

(** The assignments at the head of [__init__]; [now] is [time.time()]. No
    other attribute exists at this point. *)
Definition Entry__init__head (now : float) (a : EntryArgs) : Entry :=
  {| _pv := None;
     _id := arg__id a;
     condition := str_strip py (str_lower py (arg_condition a));
     alarm_values := arg_alarm_values a;
     unit := arg_unit a;
     warning_message := arg_warning_message a;
     subject := arg_subject a;
     email_timeout := arg_email_timeout a;
     emails := arg_emails a;
     group := arg_group a;
     step_level := 0;
     step_values := [];
     last_event_time := PrimFloat.sub now (arg_email_timeout a);
     alarm_min := None;
     alarm_max := None;
     min_level := None;
     max_level := None |}.

(** The rest of [__init__]: the dispatch on the condition, then the PV. *)
Definition Entry__init__tail (a : EntryArgs) : M Entry NoneType :=
  self <- get ;;
  (if (condition self =? OutOfRange Condition)%string then _init_out_of_range
   else if (condition self =? SuperiorThan Condition)%string then _init_superior_than
   else if (condition self =? InferiorThan Condition)%string then _init_inferior_than
   else if (condition self =? IncreasingStep Condition)%string then _init_increasing_step
   else
     s <- Entry__str__ ;;
     raise (EntryException
              ("Invalid condition " ++ condition self ++ " for entry " ++ s))) ;;
  if negb (arg_dummy a)
  then modify (set__pv (EpicsPV (str_strip py (arg_pvname a))))
  else modify (set__pv (DummyPV (str_strip py (arg_pvname a)))).

(** [Entry(...)]: the object exists only when [__init__] returns. *)
Definition Entry__init__ (now : float) (a : EntryArgs) : outcome Entry :=
  match Entry__init__tail a (Entry__init__head now a) with
  | (Return _, self) => Return self
  | (Raise x, _) => Raise x
  end.

Fixpoint _find_next_level_loop (value : float) (steps : list float) (loop_level : Z) : Z :=
  match steps with
  | [] => loop_level
  | step_value :: rest =>
      if flt value step_value then loop_level
      else _find_next_level_loop value rest (loop_level + 1)
  end.

Definition _find_next_level (self : Entry) (value : float) : Z :=
  _find_next_level_loop value (step_values self) 0.

(** The branch of [handle_condition] for [IncreasingStep]; the result is
    [specified_value_message]. *)
Definition handle_increasing_step (value : float) : M Entry (option string) :=
  self <- get ;;
  next_step_limiar <- expect IndexError (list_index (step_values self) (step_level self)) ;;
  up <- andM (ret (fge value next_step_limiar))
             (hi <- getattr "max_level" max_level ;; ret (step_level self + 1 <=? hi)) ;;
  message <- (if up then
                modify (set_step_level (_find_next_level self value)) ;;
                floor <- expect IndexError (list_index (step_values self) 0) ;;
                ret (Some ("lower than " ++ str_of_float py floor ++ unit self))
              else ret None) ;;
  self <- get ;;
  _ <- andM (ret (fge value next_step_limiar))
            (hi <- getattr "max_level" max_level ;; ret (step_level self =? hi)) ;;
  _ <- andM (ret (flt value next_step_limiar))
            (lo <- getattr "min_level" min_level ;; ret (step_level self =? lo)) ;;
  down <- andM (ret (flt value next_step_limiar))
            (andM (lo <- getattr "min_level" min_level ;; ret (negb (step_level self =? lo)))
                  (below <- expect IndexError
                              (list_index (step_values self) (step_level self - 1)) ;;
                   ret (flt value below))) ;;
  when down (modify (set_step_level (_find_next_level self value))) ;;
  ret message.

(** The [if]/[elif] chain of [handle_condition]; the result is
    [specified_value_message]. *)
Definition violation_message (value : float) : M Entry (option string) :=
  self <- get ;;
  c1 <- andM (ret (condition self =? OutOfRange Condition)%string)
             (orM (lo <- getattr "alarm_min" alarm_min ;; ret (flt value lo))
                  (hi <- getattr "alarm_max" alarm_max ;; ret (fgt value hi))) ;;
  if c1 then
    lo <- getattr "alarm_min" alarm_min ;;
    hi <- getattr "alarm_max" alarm_max ;;
    ret (Some ("from " ++ str_of_float py lo ++ unit self ++ " to "
               ++ str_of_float py hi ++ " " ++ unit self))
  else
    c2 <- andM (ret (condition self =? SuperiorThan Condition)%string)
               (hi <- getattr "alarm_max" alarm_max ;; ret (fgt value hi)) ;;
    if c2 then
      lo <- getattr "alarm_min" alarm_min ;;
      ret (Some ("lower than " ++ str_of_float py lo ++ unit self))
    else
      c3 <- andM (ret (condition self =? InferiorThan Condition)%string)
                 (lo <- getattr "alarm_min" alarm_min ;; ret (flt value lo)) ;;
      if c3 then
        lo <- getattr "alarm_min" alarm_min ;;
        ret (Some ("higher than " ++ str_of_float py lo ++ unit self))
      else if (condition self =? IncreasingStep Condition)%string then
        handle_increasing_step value
      else ret None.

(** The [try] block of [handle_condition]. *)
Definition make_event (value : float) (specified_value_message : option string)
  : M Entry (option EmailEvent) :=
  match specified_value_message with
  | Some message =>
      if str_truthy message then
        self <- get ;;
        pv <- getattr "_pv" _pv ;;
        event <- _EmailEvent
                   {| ev_pvname := pvname pv;
                      ev_specified_value_message := message;
                      ev_unit := unit self;
                      ev_warning := warning_message self;
                      ev_subject := subject self;
                      ev_emails := emails self;
                      ev_condition := condition self;
                      ev_value_measured := format_4 py value |} ;;
        ret (Some event)
      else ret None
  | None => ret None
  end.

Definition handle_condition (value : float) : M Entry (option EmailEvent) :=
  specified_value_message <- violation_message value ;;
  finally_return (make_event value specified_value_message).

(** [check_alarms(value=value)]. [timestamp] is what [time.time()] returns
    and [connected] what the external PV reports when they are read. *)
Definition check_alarms (timestamp : float) (connected : bool) (value : float)
  : M World NoneType :=
  self <- on_entry get ;;
  if negb (enabled (group self)) then ret PyNone
  else
    pv <- on_entry (getattr "_pv" _pv) ;;
    is_connected <- expect (AttributeError "connected") (pv_connected connected pv) ;;
    if negb is_connected then ret PyNone
    else
      let timedelta := PrimFloat.sub timestamp (last_event_time self) in
      if flt timedelta (email_timeout self) then ret PyNone
      else
        except_Full
          (event <- on_entry (handle_condition value) ;;
           match event with
           | Some ev =>
               on_queue (put_nowait ev) ;;
               on_entry (modify (set_last_event_time timestamp))
           | None => ret PyNone
           end).

(** [trigger()]: the manual trigger; [pv_value] is what the external PV
    holds. [DummyPV] has no attribute [value]. *)
Definition trigger (timestamp : float) (connected : bool) (pv_value : float)
  : M World NoneType :=
  pv <- on_entry (getattr "_pv" _pv) ;;
  value <- expect (AttributeError "value")
             (match pv with EpicsPV _ => Some pv_value | DummyPV _ => None end) ;;
  check_alarms timestamp connected value.

(** ** The life of an entry *)

(** What happens to an entry and its queue, one thing after the other: the
    PV calls back with a sample, an administrator switches the group, the
    dispatcher takes the oldest event. *)
Inductive action : Type :=
| Callback (timestamp : float) (connected : bool) (value : float)
| SetEnabled (b : bool)
| Dispatch.

Definition perform (act : action) (w : World) : World :=
  match act with
  | Callback timestamp connected value =>
      snd (check_alarms timestamp connected value w)
  | SetEnabled b =>
      {| entry := set_group (set_enabled b (group (entry w))) (entry w);
         sms_queue := sms_queue w |}
  | Dispatch =>
      {| entry := entry w;
         sms_queue := {| items := tl (items (sms_queue w));
                         maxsize := maxsize (sms_queue w) |} |}
  end.

Definition perform_all (acts : list action) (w : World) : World :=
  fold_left (fun w act => perform act w) acts w.

(** ** Concurrent callbacks

    Several threads run [check_alarms] on the same entry. A thread is at one
    of the program points below and takes one step at a time; the steps of
    different threads interleave in any order. [self.lock] is held by at most
    one thread; the body of the [with] block does not take it again, so the
    re-entrance of [RLock] plays no part. [handle_condition] is one step: it
    runs with the lock held and assigns [step_level] only, which no step
    outside the lock reads. *)

Inductive pc : Type :=
| AtGroupGate                          (* if not self.group.enabled *)
| AtConnected                          (* if not self._pv.connected *)
| AtTimeout                            (* timestamp, timedelta, the test *)
| AtAcquire                            (* with self.lock: entering *)
| AtHandle                             (* event = self.handle_condition(...) *)
| AtPut (event : EmailEvent)           (* self.sms_queue.put(event, ...) *)
| AtRecord                             (* self.last_event_time = timestamp *)
| AtRelease (pending : outcome NoneType)  (* with self.lock: leaving *)
| Done (result : outcome NoneType).

(** A call of [check_alarms]: what [time.time()] and [self._pv.connected]
    give it, the sample, and where it is. *)
Record Thread : Type := {
  t_timestamp : float;
  t_connected : bool;
  t_value : float;
  t_pc : pc
}.

Definition goto (p : pc) (t : Thread) : Thread :=
  {| t_timestamp := t_timestamp t; t_connected := t_connected t;
     t_value := t_value t; t_pc := p |}.

Record System : Type := {
  shared : World;
  lock : option nat;
  threads : list Thread
}.

(** The thread is inside the [with self.lock:] block. *)
Definition holds_lock (p : pc) : bool :=
  match p with
  | AtHandle | AtPut _ | AtRecord | AtRelease _ => true
  | _ => false
  end.

(** What leaves the [try] statement: [Full] is swallowed. *)
Definition after_try (r : outcome NoneType) : outcome NoneType :=
  match r with
  | Raise Full => Return PyNone
  | _ => r
  end.

(** One step of thread [i]; [None] when it cannot move (it waits for the
    lock, or has finished). *)
Definition thread_step (i : nat) (t : Thread) (w : World) (l : option nat)
  : option (Thread * World * option nat) :=
  match t_pc t with
  | AtGroupGate =>
      if negb (enabled (group (entry w)))
      then Some (goto (Done (Return PyNone)) t, w, l)
      else Some (goto AtConnected t, w, l)
  | AtConnected =>
      match on_entry (getattr "_pv" _pv) w with
      | (Return pv, _) =>
          match pv_connected (t_connected t) pv with
          | Some is_connected =>
              if negb is_connected
              then Some (goto (Done (Return PyNone)) t, w, l)
              else Some (goto AtTimeout t, w, l)
          | None => Some (goto (Done (Raise (AttributeError "connected"))) t, w, l)
          end
      | (Raise x, _) => Some (goto (Done (Raise x)) t, w, l)
      end
  | AtTimeout =>
      let timedelta := PrimFloat.sub (t_timestamp t) (last_event_time (entry w)) in
      if flt timedelta (email_timeout (entry w))
      then Some (goto (Done (Return PyNone)) t, w, l)
      else Some (goto AtAcquire t, w, l)
  | AtAcquire =>
      match l with
      | None => Some (goto AtHandle t, w, Some i)
      | Some _ => None
      end
  | AtHandle =>
      match on_entry (handle_condition (t_value t)) w with
      | (Return (Some ev), w') => Some (goto (AtPut ev) t, w', l)
      | (Return None, w') => Some (goto (AtRelease (Return PyNone)) t, w', l)
      | (Raise x, w') => Some (goto (AtRelease (Raise x)) t, w', l)
      end
  | AtPut ev =>
      match on_queue (put_nowait ev) w with
      | (Return _, w') => Some (goto AtRecord t, w', l)
      | (Raise x, w') => Some (goto (AtRelease (Raise x)) t, w', l)
      end
  | AtRecord =>
      match on_entry (modify (set_last_event_time (t_timestamp t))) w with
      | (r, w') => Some (goto (AtRelease r) t, w', l)
      end
  | AtRelease r => Some (goto (Done (after_try r)) t, w, None)
  | Done _ => None
  end.

Fixpoint replace_nth {A : Type} (i : nat) (x : A) (l : list A) : list A :=
  match l, i with
  | [], _ => []
  | _ :: rest, O => x :: rest
  | y :: rest, S i' => y :: replace_nth i' x rest
  end.

(** The scheduler lets thread [i] take a step. *)
Definition step (i : nat) (s : System) : option System :=
  match nth_error (threads s) i with
  | Some t =>
      match thread_step i t (shared s) (lock s) with
      | Some (t', w', l') =>
          Some {| shared := w'; lock := l'; threads := replace_nth i t' (threads s) |}
      | None => None
      end
  | None => None
  end.

(** The threads take their steps in the order of the schedule. *)
Fixpoint run (schedule : list nat) (s : System) : option System :=
  match schedule with
  | [] => Some s
  | i :: rest =>
      match step i s with
      | Some s' => run rest s'
      | None => None
      end
  end.

(** The callbacks have been called and none has moved yet. *)
Definition start (w : World) (calls : list (float * bool * float)) : System :=
  {| shared := w;
     lock := None;
     threads := map (fun '(timestamp, connected, value) =>
                       {| t_timestamp := timestamp; t_connected := connected;
                          t_value := value; t_pc := AtGroupGate |}) calls |}.

(** The lock is held by exactly the threads that are inside the block. *)
Definition lock_discipline (s : System) : Prop :=
  forall i t, nth_error (threads s) i = Some t ->
              (holds_lock (t_pc t) = true <-> lock s = Some i).

(** ** Dictionaries *)

(** The values that [as_dict] stores. *)
Inductive pyvalue : Type :=
| VStr (s : string)
| VFloat (x : float)
| VBool (b : bool).

(** [Group.as_dict]: a dict is the list of its items, in insertion order. *)
Definition Group_as_dict (g : Group) : list (string * pyvalue) :=
  [("name", VStr (name g)); ("enabled", VBool (enabled g))].

(** [Entry.as_dict] *)
Definition as_dict : M Entry (list (string * pyvalue)) :=
  self <- get ;;
  pv <- getattr "_pv" _pv ;;
  ret [("pvname", VStr (pvname pv));
       ("condition", VStr (condition self));
       ("alarm_values", VStr (alarm_values self));
       ("unit", VStr (unit self));
       ("emails", VStr (emails self));
       ("group", VStr (name (group self)));
       ("warning_message", VStr (warning_message self));
       ("subject", VStr (subject self));
       ("email_timeout", VFloat (email_timeout self))].

(** [d[key]] for a dict given by its items. *)
Fixpoint dict_get (key : string) (d : list (string * pyvalue)) : option pyvalue :=
  match d with
  | [] => None
  | (k, v) :: rest => if (k =? key)%string then Some v else dict_get key rest
  end.

(** Every threshold is less than its successor. *)
Fixpoint increasing (steps : list float) : bool :=
  match steps with
  | s :: ((v :: _) as rest) => flt s v && increasing rest
  | _ => true
  end.

(** The PV calls back once for each call, in order. *)
Definition callbacks (calls : list (float * bool * float)) : list action :=
  map (fun '(timestamp, connected, value) => Callback timestamp connected value)
      calls.

(** The number of steps that a thread can still take, at most. *)
Definition steps_left (p : pc) : nat :=
  match p with
  | AtGroupGate => 8
  | AtConnected => 7
  | AtTimeout => 6
  | AtAcquire => 5
  | AtHandle => 4
  | AtPut _ => 3
  | AtRecord => 2
  | AtRelease _ => 1
  | Done _ => 0
  end.

Definition work_left (s : System) : nat :=
  list_sum (map (fun t => steps_left (t_pc t)) (threads s)).

(** No thread can move. *)
Definition stuck (s : System) : Prop :=
  forall i, step i s = None.

(** Every thread has returned or raised. *)
Definition all_done (s : System) : Prop :=
  forall i t, nth_error (threads s) i = Some t -> exists r, t_pc t = Done r.

(** ** Notions used to state the properties *)

(** The event that [handle_condition] builds from a message: the arguments
    of the constructor call. *)
Definition event_of (value : float) (message : string) (pv : PV) (e : Entry)
  : EmailEvent :=
  {| ev_pvname := pvname pv;
     ev_specified_value_message := message;
     ev_unit := unit e;
     ev_warning := warning_message e;
     ev_subject := subject e;
     ev_emails := emails e;
     ev_condition := condition e;
     ev_value_measured := format_4 py value |}.

(** All the parts are numbers: the floats they denote. *)
Fixpoint parse_all (parts : list string) : option (list float) :=
  match parts with
  | [] => Some []
  | val :: rest =>
      match float_of_str py val, parse_all rest with
      | Some x, Some xs => Some (x :: xs)
      | _, _ => None
      end
  end.

(** Some threshold is greater than or equal to its successor. *)
Fixpoint has_descent (steps : list float) : bool :=
  match steps with
  | s :: ((v :: _) as rest) => fge s v || has_descent rest
  | _ => false
  end.

(** [step_level] is a level of the stair. *)
Definition level_in_range (e : Entry) : Prop :=
  0 <= step_level e <= Z.of_nat (List.length (step_values e)).

(** The normalised condition name of a configuration. *)
Definition condition_of (a : EntryArgs) : string :=
  str_strip py (str_lower py (arg_condition a)).

(** The PV that [__init__] creates last. *)
Definition pv_of (a : EntryArgs) : PV :=
  if negb (arg_dummy a) then EpicsPV (str_strip py (arg_pvname a))
  else DummyPV (str_strip py (arg_pvname a)).

Definition supported (c : string) : bool :=
  ((c =? OutOfRange Condition) || (c =? SuperiorThan Condition)
   || (c =? InferiorThan Condition) || (c =? IncreasingStep Condition))%string.

(** The defects of a configuration. *)

Definition is_some {A : Type} (o : option A) : bool :=
  match o with Some _ => true | None => false end.

(** The condition name is not one of the four supported ones. *)
Definition unsupported_condition (a : EntryArgs) : bool :=
  negb (supported (condition_of a)).

(** The parameters of a supported condition are not the numbers it needs:
    two floats separated by a colon, one float, or floats separated by
    colons. *)
Definition malformed_numbers (a : EntryArgs) : bool :=
  let c := condition_of a in
  let parts := str_split ":" (arg_alarm_values a) in
  if (c =? OutOfRange Condition)%string then
    match parts with
    | [_min; _max] =>
        negb (is_some (float_of_str py _min) && is_some (float_of_str py _max))
    | _ => true
    end
  else if ((c =? SuperiorThan Condition) || (c =? InferiorThan Condition))%string then
    negb (is_some (float_of_str py (arg_alarm_values a)))
  else if (c =? IncreasingStep Condition)%string then
    negb (is_some (parse_all parts))
  else false.

(** The thresholds of a step condition are numbers, and one of them is
    greater than or equal to its successor. *)
Definition thresholds_not_increasing (a : EntryArgs) : bool :=
  (condition_of a =? IncreasingStep Condition)%string &&
  match parse_all (str_split ":" (arg_alarm_values a)) with
  | Some vals => has_descent vals
  | None => false
  end.

(** The bounds of a range condition are numbers, and [min >= max]. *)
Definition range_inverted (a : EntryArgs) : bool :=
  (condition_of a =? OutOfRange Condition)%string &&
  match str_split ":" (arg_alarm_values a) with
  | [_min; _max] =>
      match float_of_str py _min, float_of_str py _max with
      | Some lo, Some hi => fge lo hi
      | _, _ => false
      end
  | _ => false
  end.

End EntryModel.

End Model.

(** ** Concrete configurations *)

Module Example.

(** Modelled from the spec: the values of the constants of [Condition]
    (app/commons/condition.py), which is not among the sources. The spec
    compares the trimmed, lower-case configured name with them and gives
    ["outofrange"] as the normal form of [" outOfRange "]. *)
Definition names : ConditionNames :=
  {| OutOfRange := "outofrange";
     SuperiorThan := "superiorthan";
     InferiorThan := "inferiorthan";
     IncreasingStep := "increasingstep";
     DecreasingStep := "decreasingstep" |}.

(** Modelled from the spec: the constructor of [EmailEvent]
    (app/commons/event.py), which is not among the sources, stores its
    arguments. *)
Definition accept_all : EmailEvent -> option exn := fun _ => None.

Definition operators : Group := {| name := "operators"; _enabled := true |}.

Definition config (cond values : string) (dummy : bool) : EntryArgs :=
  {| arg_pvname := " SI-13C4:DI-DCCT:Current-Mon ";
     arg_emails := "control@example.org:operation@example.org";
     arg_condition := cond;
     arg_alarm_values := values;
     arg_unit := "mA";
     arg_warning_message := "Check the beam current";
     arg_subject := "Beam current alarm";
     arg_email_timeout := 60%float;
     arg_group := operators;
     arg__id := None;
     arg_dummy := dummy |}.

(** The time of construction in the examples. *)
Definition epoch : float := 1000%float.

Definition entry_of (cond values : string) : Entry :=
  match Entry__init__ cpython names epoch (config cond values false) with
  | Return e => e
  | Raise _ => Entry__init__head cpython epoch (config cond values false)
  end.

Definition step_entry : Entry := entry_of " IncreasingStep " "1.5:2.0:2.5:3.0".
Definition range_entry : Entry := entry_of "OutOfRange" "0:10".
Definition superior_entry : Entry := entry_of "SuperiorThan" "5".

Definition inferior_entry : Entry := entry_of "InferiorThan" "5".

(** The stand-in entry of tests and scripts. *)
Definition dummy_entry : Entry :=
  match Entry__init__ cpython names epoch (config "OutOfRange" "0:10" true) with
  | Return e => e
  | Raise _ => Entry__init__head cpython epoch (config "OutOfRange" "0:10" true)
  end.

Definition empty_queue : Queue := {| items := []; maxsize := 8 |}.

Definition world_of (e : Entry) : World := {| entry := e; sms_queue := empty_queue |}.

(** An event of the range entry. *)
Definition range_event : EmailEvent :=
  event_of cpython 20%float "from 0.0mA to 10.0 mA"
           (EpicsPV "SI-13C4:DI-DCCT:Current-Mon") range_entry.

(** A queue that is full. *)
Definition full_queue : Queue := {| items := [range_event]; maxsize := 1 |}.

Definition disable (e : Entry) : Entry :=
  set_group (set_enabled false (group e)) e.

(** The step entry after the sample 3.5 at time 2000: level 4 of 4. *)
Definition ceiling_world : World :=
  perform cpython names accept_all (Callback 2000 true 3.5) (world_of step_entry).

(** Two callbacks on the range entry, one second apart, both with a sample
    out of range. *)
Definition two_calls : list (float * bool * float) :=
  [(2000%float, true, 20%float); (2001%float, true, 30%float)].

(** Both threads pass the three guards, then each in turn goes through the
    block. *)
Definition racing_schedule : list nat :=
  [0; 0; 0; 1; 1; 1; 0; 0; 0; 0; 0; 1; 1; 1; 1; 1]%nat.

(** The first thread is in the block, the second has passed the guards. *)
Definition racing_state : System :=
  match run cpython names accept_all [0; 0; 0; 0; 1; 1; 1]%nat
            (start (world_of range_entry) two_calls) with
  | Some s => s
  | None => start (world_of range_entry) two_calls
  end.

(** Both threads have gone through the block. *)
Definition finished_state : System :=
  match run cpython names accept_all racing_schedule
            (start (world_of range_entry) two_calls) with
  | Some s => s
  | None => start (world_of range_entry) two_calls
  end.

Definition check_alarms' := check_alarms cpython names accept_all.
Definition handle_condition' := handle_condition cpython names accept_all.

End Example.

Arguments handle_condition : simpl never.
Arguments handle_increasing_step : simpl never.
Arguments violation_message : simpl never.
Arguments make_event : simpl never.

(** * Properties *)

(** ** Floats *)

Lemma SFcompare_antisym (a b : spec_float) :
  SFcompare b a = option_map CompOpp (SFcompare a b).
Proof.
  destruct a as [sa| sa | | sa ma ea], b as [sb | sb | | sb mb eb]; simpl;
    try reflexivity;
    try (destruct sa; reflexivity);
    try (destruct sb; reflexivity);
    try (destruct sa, sb; reflexivity).
  destruct sa, sb; try reflexivity;
    rewrite (Z.compare_antisym ea eb);
    destruct (ea ?= eb)%Z; simpl; try reflexivity;
    rewrite !Pos.compare_cont_spec; simpl;
    rewrite (Pos.compare_antisym ma mb);
    destruct (ma ?= mb)%positive; reflexivity.
Qed.

(** [a >= b] excludes [a < b]. *)
Lemma fge_not_flt (a b : float) : fge a b = true -> flt a b = false.
Proof.
  unfold fge, flt. rewrite leb_spec, ltb_spec.
  unfold SFleb, SFltb. rewrite (SFcompare_antisym (Prim2SF b) (Prim2SF a)).
  destruct (SFcompare (Prim2SF b) (Prim2SF a)) as [[]|]; simpl; congruence.
Qed.

(** ** Subscripts *)

Lemma list_index_nat {A : Type} (l : list A) (i : Z) :
  0 <= i < Z.of_nat (List.length l) ->
  list_index l i = nth_error l (Z.to_nat i).
Proof.
  intros H. unfold list_index.
  destruct (Z.leb_spec 0 i); [|lia].
  destruct (Z.ltb_spec i (Z.of_nat (List.length l))); [|lia].
  reflexivity.
Qed.

Lemma list_index_length {A : Type} (l : list A) :
  list_index l (Z.of_nat (List.length l)) = None.
Proof.
  unfold list_index.
  destruct (Z.ltb_spec (Z.of_nat (List.length l)) (Z.of_nat (List.length l))); [lia|].
  rewrite andb_false_r.
  destruct (Z.ltb_spec (Z.of_nat (List.length l)) 0); [lia|].
  rewrite andb_false_r. reflexivity.
Qed.

Lemma list_index_Some_range {A : Type} (l : list A) (i : Z) (x : A) :
  list_index l i = Some x ->
  - Z.of_nat (List.length l) <= i < Z.of_nat (List.length l).
Proof.
  unfold list_index.
  destruct (Z.leb_spec 0 i), (Z.ltb_spec i (Z.of_nat (List.length l))); simpl;
    try lia;
    destruct (Z.leb_spec (- Z.of_nat (List.length l)) i), (Z.ltb_spec i 0); simpl;
    try lia; discriminate.
Qed.

(** ** [_find_next_level] *)

Lemma _find_next_level_loop_range (value : float) (steps : list float) (k : Z) :
  k <= _find_next_level_loop value steps k <= k + Z.of_nat (List.length steps).
Proof.
  revert k. induction steps as [|s steps IH]; intros k; simpl.
  - lia.
  - destruct (flt value s).
    + lia.
    + specialize (IH (k + 1)). lia.
Qed.

(** The level found is the least subscript whose threshold exceeds the
    value, and the number of thresholds when there is none. *)
Lemma _find_next_level_loop_least (value : float) (steps : list float) (k : Z) :
  let r := _find_next_level_loop value steps k in
  (forall i x, (i < Z.to_nat (r - k))%nat -> nth_error steps i = Some x ->
               flt value x = false) /\
  (r - k < Z.of_nat (List.length steps) ->
   exists x, nth_error steps (Z.to_nat (r - k)) = Some x /\ flt value x = true).
Proof.
  revert k. induction steps as [|s steps IH]; intros k; simpl.
  - split.
    + intros i x Hi. replace (k - k) with 0 in Hi by lia. simpl in Hi. lia.
    + lia.
  - destruct (flt value s) eqn:Hs.
    + replace (k - k) with 0 by lia. simpl. split.
      * intros i x Hi. lia.
      * intros _. exists s. auto.
    + specialize (IH (k + 1)). simpl in IH. destruct IH as [IH1 IH2].
      pose proof (_find_next_level_loop_range value steps (k + 1)) as Hr.
      set (r := _find_next_level_loop value steps (k + 1)) in *.
      replace (Z.to_nat (r - k)) with (S (Z.to_nat (r - (k + 1)))) by lia.
      split.
      * intros [|i] x Hi Hx; simpl in Hx.
        -- congruence.
        -- apply (IH1 i x); [lia | exact Hx].
      * intros Hlt. simpl. apply IH2. lia.
Qed.

Section EntryProperties.

Variable py : Builtins.
Variable Condition : ConditionNames.
Variable EmailEvent_error : EmailEvent -> option exn.

(** The five condition names are distinct strings. *)
Hypothesis Condition_distinct : NoDup (condition_names Condition).

Local Abbreviation handle_condition := (handle_condition py Condition EmailEvent_error).
Local Abbreviation check_alarms := (check_alarms py Condition EmailEvent_error).
Local Abbreviation violation_message := (violation_message py Condition).
Local Abbreviation make_event := (make_event py EmailEvent_error).
Local Abbreviation Entry__init__ := (Entry__init__ py Condition).
Local Abbreviation event_of := (event_of py).
Local Abbreviation trigger := (trigger py Condition EmailEvent_error).
Local Abbreviation stuck := (stuck py Condition EmailEvent_error).
Local Abbreviation thread_step := (thread_step py Condition EmailEvent_error).
Local Abbreviation step := (step py Condition EmailEvent_error).
Local Abbreviation run := (run py Condition EmailEvent_error).
Local Abbreviation unsupported_condition := (unsupported_condition py Condition).
Local Abbreviation malformed_numbers := (malformed_numbers py Condition).
Local Abbreviation thresholds_not_increasing := (thresholds_not_increasing py Condition).
Local Abbreviation range_inverted := (range_inverted py Condition).
Local Abbreviation perform := (perform py Condition EmailEvent_error).
Local Abbreviation perform_all := (perform_all py Condition EmailEvent_error).
Local Abbreviation condition_of := (condition_of py).
Local Abbreviation pv_of := (pv_of py).
Local Abbreviation supported := (supported Condition).
Local Abbreviation Entry__init__head := (Entry__init__head py).

Ltac run :=
  cbv beta iota delta
    [bind andM orM when ret raise get modify getattr expect
     on_entry on_queue except_Full finally_return];
  simpl.

Ltac rewrites :=
  repeat (simpl;
          match goal with
          | H : ?l = _ |- context [?l] => rewrite H
          end);
  simpl.

Ltac case_match :=
  match goal with
  | |- context [match ?x with _ => _ end] =>
      lazymatch x with
      | context [match _ with _ => _ end] => fail
      | _ => destruct x eqn:?
      end
  end.

Lemma set_step_level_same (e : Entry) : set_step_level (step_level e) e = e.
Proof. destruct e; reflexivity. Qed.

(** [make_event] reads [self] and never raises past its [finally]. *)
Lemma make_event_frame (value : float) (m : option string) (e : Entry) :
  exists r, finally_return (make_event value m) e = (Return r, e).
Proof.
  unfold make_event, _EmailEvent. destruct m as [s|]; run.
  - destruct (str_truthy s); run.
    + destruct (_pv e); run.
      * case_match; run; eauto.
      * eauto.
    + eauto.
  - eauto.
Qed.

(** [handle_increasing_step] assigns [step_level] only. *)
Lemma handle_increasing_step_frame (value : float) (e : Entry) :
  forall r e', handle_increasing_step py value e = (r, e') ->
               e' = set_step_level (step_level e') e.
Proof.
  intros r e'. unfold handle_increasing_step. run.
  repeat (case_match; run);
    intros H; inversion H; subst; clear H;
    try reflexivity; symmetry; apply set_step_level_same.
Qed.

Lemma violation_message_frame (value : float) (e : Entry) :
  forall r e', violation_message value e = (r, e') ->
               e' = set_step_level (step_level e') e.
Proof.
  intros r e'. unfold violation_message. run.
  repeat (case_match; run);
    try apply handle_increasing_step_frame;
    intros H; inversion H; subst; symmetry; apply set_step_level_same.
Qed.

(** [handle_condition] assigns [step_level] only. *)
Lemma handle_condition_frame (value : float) (e : Entry) :
  forall r e', handle_condition value e = (r, e') ->
               e' = set_step_level (step_level e') e.
Proof.
  intros r e'. unfold Model.handle_condition, bind.
  destruct (violation_message value e) as [[m|x] e1] eqn:Hm.
  - destruct (make_event_frame value m e1) as [r1 Hr1]. rewrite Hr1.
    intros H; inversion H; subst. eapply violation_message_frame; eauto.
  - intros H; inversion H; subst. eapply violation_message_frame; eauto.
Qed.

(** ** The guards of [check_alarms] *)

Lemma check_alarms_disabled (timestamp : float) (connected : bool) (value : float)
      (w : World) :
  enabled (group (entry w)) = false ->
  check_alarms timestamp connected value w = (Return PyNone, w).
Proof.
  intros H. unfold Model.check_alarms. run. rewrite H. simpl.
  destruct w; reflexivity.
Qed.

Lemma check_alarms_disconnected (timestamp : float) (value : float) (w : World)
      (n : string) :
  _pv (entry w) = Some (EpicsPV n) ->
  check_alarms timestamp false value w = (Return PyNone, w).
Proof.
  intros H. unfold Model.check_alarms. run.
  destruct (enabled (group (entry w))); simpl; [|destruct w; reflexivity].
  rewrite H. simpl. destruct w; reflexivity.
Qed.

Lemma check_alarms_debounced (timestamp : float) (connected : bool) (value : float)
      (w : World) (n : string) :
  _pv (entry w) = Some (EpicsPV n) ->
  flt (PrimFloat.sub timestamp (last_event_time (entry w)))
      (email_timeout (entry w)) = true ->
  check_alarms timestamp connected value w = (Return PyNone, w).
Proof.
  intros Hpv Ht. unfold Model.check_alarms. run.
  destruct (enabled (group (entry w))); simpl; [|destruct w; reflexivity].
  rewrite Hpv. simpl.
  destruct connected; simpl; [|destruct w; reflexivity].
  rewrite Ht. destruct w; reflexivity.
Qed.

(** Past the three guards, an event that [handle_condition] returns is put
    on the queue and the time of the evaluation is recorded. *)
Lemma check_alarms_enqueue (timestamp : float) (value : float) (w : World)
      (n : string) (ev : EmailEvent) (e1 : Entry) :
  enabled (group (entry w)) = true ->
  _pv (entry w) = Some (EpicsPV n) ->
  flt (PrimFloat.sub timestamp (last_event_time (entry w)))
      (email_timeout (entry w)) = false ->
  handle_condition value (entry w) = (Return (Some ev), e1) ->
  (List.length (items (sms_queue w)) < maxsize (sms_queue w))%nat ->
  check_alarms timestamp true value w =
  (Return PyNone,
   {| entry := set_last_event_time timestamp e1;
      sms_queue := {| items := items (sms_queue w) ++ [ev];
                      maxsize := maxsize (sms_queue w) |} |}).
Proof.
  intros Hg Hpv Ht Hh Hroom. unfold Model.check_alarms. run.
  rewrite Hg. simpl. rewrite Hpv. simpl. rewrite Ht. simpl.
  rewrite Hh. simpl. unfold put_nowait. simpl.
  apply Nat.ltb_lt in Hroom. rewrite Hroom. reflexivity.
Qed.

(** Past the three guards, with a full queue: [put] raises [Full] before
    the assignment to [last_event_time], and the handler swallows it. *)
Lemma check_alarms_queue_full (timestamp : float) (value : float) (w : World)
      (n : string) (ev : EmailEvent) (e1 : Entry) :
  enabled (group (entry w)) = true ->
  _pv (entry w) = Some (EpicsPV n) ->
  flt (PrimFloat.sub timestamp (last_event_time (entry w)))
      (email_timeout (entry w)) = false ->
  handle_condition value (entry w) = (Return (Some ev), e1) ->
  (maxsize (sms_queue w) <= List.length (items (sms_queue w)))%nat ->
  check_alarms timestamp true value w =
  (Return PyNone, {| entry := e1; sms_queue := sms_queue w |}).
Proof.
  intros Hg Hpv Ht Hh Hfull. unfold Model.check_alarms. run.
  rewrite Hg. simpl. rewrite Hpv. simpl. rewrite Ht. simpl.
  rewrite Hh. simpl. unfold put_nowait. simpl.
  apply Nat.ltb_ge in Hfull. rewrite Hfull. reflexivity.
Qed.

(** Past the three guards, whatever [handle_condition] does that is not an
    event is what [check_alarms] does. *)
Lemma check_alarms_no_event (timestamp : float) (value : float) (w : World)
      (n : string) (e1 : Entry) :
  enabled (group (entry w)) = true ->
  _pv (entry w) = Some (EpicsPV n) ->
  flt (PrimFloat.sub timestamp (last_event_time (entry w)))
      (email_timeout (entry w)) = false ->
  handle_condition value (entry w) = (Return None, e1) ->
  check_alarms timestamp true value w =
  (Return PyNone, {| entry := e1; sms_queue := sms_queue w |}).
Proof.
  intros Hg Hpv Ht Hh. unfold Model.check_alarms. run.
  rewrite Hg. simpl. rewrite Hpv. simpl. rewrite Ht. simpl.
  rewrite Hh. simpl. reflexivity.
Qed.

Lemma check_alarms_raises (timestamp : float) (value : float) (w : World)
      (n : string) (x : exn) (e1 : Entry) :
  enabled (group (entry w)) = true ->
  _pv (entry w) = Some (EpicsPV n) ->
  flt (PrimFloat.sub timestamp (last_event_time (entry w)))
      (email_timeout (entry w)) = false ->
  handle_condition value (entry w) = (Raise x, e1) ->
  x <> Full ->
  check_alarms timestamp true value w =
  (Raise x, {| entry := e1; sms_queue := sms_queue w |}).
Proof.
  intros Hg Hpv Ht Hh Hx. unfold Model.check_alarms. run.
  rewrite Hg. simpl. rewrite Hpv. simpl. rewrite Ht. simpl.
  rewrite Hh. simpl. destruct x; try reflexivity. congruence.
Qed.

(** ** The condition names *)

Lemma NoDup5 {A : Type} (a b c d e : A) :
  NoDup [a; b; c; d; e] ->
  a <> b /\ a <> c /\ a <> d /\ a <> e /\ b <> c /\ b <> d /\ b <> e /\
  c <> d /\ c <> e /\ d <> e.
Proof.
  intros H.
  inversion H as [|? ? Ha H1]; subst.
  inversion H1 as [|? ? Hb H2]; subst.
  inversion H2 as [|? ? Hc H3]; subst.
  inversion H3 as [|? ? Hd H4]; subst.
  simpl in *. intuition congruence.
Qed.

Lemma names_distinct :
  OutOfRange Condition <> SuperiorThan Condition /\
  OutOfRange Condition <> InferiorThan Condition /\
  OutOfRange Condition <> IncreasingStep Condition /\
  OutOfRange Condition <> DecreasingStep Condition /\
  SuperiorThan Condition <> InferiorThan Condition /\
  SuperiorThan Condition <> IncreasingStep Condition /\
  SuperiorThan Condition <> DecreasingStep Condition /\
  InferiorThan Condition <> IncreasingStep Condition /\
  InferiorThan Condition <> DecreasingStep Condition /\
  IncreasingStep Condition <> DecreasingStep Condition.
Proof. apply NoDup5. exact Condition_distinct. Qed.

Ltac names :=
  pose proof names_distinct as
    (Hos & Hoi & Hoc & Hod & Hsi & Hsc & Hsd & Hic & Hid & Hcd).

Ltac eqb_names :=
  repeat rewrite String.eqb_refl;
  repeat match goal with
    | |- context [String.eqb ?a ?b] =>
        let H := fresh in
        assert (H : String.eqb a b = false)
          by (apply String.eqb_neq; congruence);
        rewrite H; clear H
    end.

(** ** [handle_condition], by condition *)

Lemma violation_message_increasing_step (value : float) (e : Entry) :
  condition e = IncreasingStep Condition ->
  violation_message value e = handle_increasing_step py value e.
Proof.
  intros Hc. names. unfold Model.violation_message. run.
  rewrite Hc. eqb_names. simpl. eqb_names. reflexivity.
Qed.

Lemma handle_condition_of_message (value : float) (e e1 : Entry) :
  violation_message value e = (Return None, e1) ->
  handle_condition value e = (Return None, e1).
Proof.
  intros H. unfold Model.handle_condition, bind. rewrite H. reflexivity.
Qed.

Lemma handle_condition_raises (value : float) (e e1 : Entry) (x : exn) :
  violation_message value e = (Raise x, e1) ->
  handle_condition value e = (Raise x, e1).
Proof.
  intros H. unfold Model.handle_condition, bind. rewrite H. reflexivity.
Qed.

Lemma handle_condition_message (value : float) (e e1 : Entry) (message : string)
      (pv : PV) :
  violation_message value e = (Return (Some message), e1) ->
  str_truthy message = true ->
  _pv e = Some pv ->
  handle_condition value e =
  (Return (match EmailEvent_error (event_of value message pv e) with
           | None => Some (event_of value message pv e)
           | Some _ => None
           end), e1).
Proof.
  intros H Ht Hpv.
  pose proof (violation_message_frame _ _ _ _ H) as Hf.
  unfold Model.handle_condition, bind. rewrite H.
  unfold Model.make_event, _EmailEvent. rewrite Ht. run.
  rewrite Hf. simpl. rewrite Hpv. simpl. unfold event_of.
  case_match; reflexivity.
Qed.

(** At the ceiling the subscript of the next threshold is out of range. *)
Lemma handle_increasing_step_ceiling (value : float) (e : Entry) :
  step_level e = Z.of_nat (List.length (step_values e)) ->
  handle_increasing_step py value e = (Raise IndexError, e).
Proof.
  intros Hl. unfold handle_increasing_step. run.
  rewrite Hl, list_index_length. reflexivity.
Qed.

(** Going up. *)
Lemma handle_increasing_step_up (value next floor : float) (e : Entry) :
  max_level e = Some (Z.of_nat (List.length (step_values e))) ->
  list_index (step_values e) (step_level e) = Some next ->
  list_index (step_values e) 0 = Some floor ->
  0 <= step_level e ->
  fge value next = true ->
  handle_increasing_step py value e =
  (Return (Some ("lower than " ++ str_of_float py floor ++ unit e)),
   set_step_level (_find_next_level e value) e).
Proof.
  intros Hmax Hnext Hfloor Hpos Hge.
  pose proof (list_index_Some_range _ _ _ Hnext) as Hr.
  pose proof (fge_not_flt _ _ Hge) as Hlt.
  assert (Hle : (step_level e + 1 <=? Z.of_nat (List.length (step_values e))) = true)
    by (apply Z.leb_le; lia).
  unfold handle_increasing_step. run. rewrites. reflexivity.
Qed.

(** Going down. *)
Lemma handle_increasing_step_down (value next below : float) (e : Entry) :
  min_level e = Some 0 ->
  list_index (step_values e) (step_level e) = Some next ->
  list_index (step_values e) (step_level e - 1) = Some below ->
  step_level e <> 0 ->
  flt value next = true ->
  flt value below = true ->
  handle_increasing_step py value e =
  (Return None, set_step_level (_find_next_level e value) e).
Proof.
  intros Hmin Hnext Hbelow Hpos Hlt Hlt'.
  assert (Hge : fge value next = false).
  { destruct (fge value next) eqn:E; [|reflexivity].
    apply fge_not_flt in E. congruence. }
  assert (Hz : (step_level e =? 0) = false) by (apply Z.eqb_neq; exact Hpos).
  unfold handle_increasing_step. run. rewrites. reflexivity.
Qed.

(** ** Construction *)

Lemma str_split_not_nil (sep : ascii) (s : string) : str_split sep s <> [].
Proof.
  destruct s as [|c s]; simpl; [discriminate|].
  destruct (Ascii.eqb c sep); [discriminate|].
  destruct (str_split sep s); discriminate.
Qed.

Lemma parse_all_length (parts : list string) (vals : list float) :
  parse_all py parts = Some vals -> List.length vals = List.length parts.
Proof.
  revert vals. induction parts as [|p parts IH]; intros vals; simpl.
  - intros H; inversion H; reflexivity.
  - destruct (float_of_str py p); [|discriminate].
    destruct (parse_all py parts) as [xs|]; [|discriminate].
    intros H; inversion H; subst. simpl. f_equal. apply IH. reflexivity.
Qed.

Lemma floats_of_spec (parts : list string) (e : Entry) :
  floats_of py parts e =
  (match parse_all py parts with
   | Some vals => Return vals
   | None => Raise ValueError
   end, e).
Proof.
  induction parts as [|p parts IH]; simpl.
  - reflexivity.
  - unfold to_float. run. destruct (float_of_str py p); simpl; [|reflexivity].
    rewrite IH. destruct (parse_all py parts); reflexivity.
Qed.

Lemma check_sorted_spec (s : float) (rest : list float) (e : Entry) :
  _pv e = None ->
  check_sorted s rest e =
  (if has_descent (s :: rest) then Raise (AttributeError "_pv") else Return PyNone, e).
Proof.
  intros Hpv. revert s. induction rest as [|v rest IH]; intros s.
  - reflexivity.
  - cbn [check_sorted has_descent]. destruct (fge s v); simpl.
    + run. rewrite Hpv. reflexivity.
    + apply IH.
Qed.

Lemma init_unsupported (now : float) (a : EntryArgs) :
  supported (condition_of a) = false ->
  Entry__init__ now a = Raise (AttributeError "_pv").
Proof.
  unfold Model.supported, Model.condition_of. intros H.
  repeat (apply orb_false_iff in H; destruct H as [H ?]).
  unfold Model.Entry__init__, Entry__init__tail. run. rewrites.
  unfold Entry__str__. run. reflexivity.
Qed.

Lemma init_out_of_range (now : float) (a : EntryArgs) :
  condition_of a = OutOfRange Condition ->
  Entry__init__ now a =
  match str_split ":" (arg_alarm_values a) with
  | [_min; _max] =>
      match float_of_str py _min, float_of_str py _max with
      | Some lo, Some hi =>
          if fge lo hi then Raise (AttributeError "_pv")
          else Return (set__pv (pv_of a)
                         (set_alarm_max hi (set_alarm_min lo (Entry__init__head now a))))
      | _, _ => Raise ValueError
      end
  | _ => Raise ValueError
  end.
Proof.
  unfold Model.condition_of. intros H.
  unfold Model.Entry__init__, Entry__init__tail. run. rewrite H.
  rewrite String.eqb_refl. unfold _init_out_of_range, to_float. run.
  destruct (str_split ":" (arg_alarm_values a)) as [|lo_s [|hi_s [|? ?]]];
    try reflexivity.
  destruct (float_of_str py lo_s) as [lo|]; simpl; [|reflexivity].
  destruct (float_of_str py hi_s) as [hi|]; simpl; [|reflexivity].
  destruct (fge lo hi); simpl; [reflexivity|].
  unfold Model.pv_of. destruct (arg_dummy a); reflexivity.
Qed.

Lemma init_superior_than (now : float) (a : EntryArgs) :
  condition_of a = SuperiorThan Condition ->
  Entry__init__ now a =
  match float_of_str py (arg_alarm_values a) with
  | Some hi => Return (set__pv (pv_of a) (set_alarm_max hi (Entry__init__head now a)))
  | None => Raise ValueError
  end.
Proof.
  unfold Model.condition_of. intros H. names.
  unfold Model.Entry__init__, Entry__init__tail. run. rewrite H.
  eqb_names. unfold _init_superior_than, to_float. run.
  destruct (float_of_str py (arg_alarm_values a)) as [hi|]; simpl; [|reflexivity].
  unfold Model.pv_of. destruct (arg_dummy a); reflexivity.
Qed.

Lemma init_inferior_than (now : float) (a : EntryArgs) :
  condition_of a = InferiorThan Condition ->
  Entry__init__ now a =
  match float_of_str py (arg_alarm_values a) with
  | Some lo => Return (set__pv (pv_of a) (set_alarm_min lo (Entry__init__head now a)))
  | None => Raise ValueError
  end.
Proof.
  unfold Model.condition_of. intros H. names.
  unfold Model.Entry__init__, Entry__init__tail. run. rewrite H.
  eqb_names. unfold _init_inferior_than, to_float. run.
  destruct (float_of_str py (arg_alarm_values a)) as [lo|]; simpl; [|reflexivity].
  unfold Model.pv_of. destruct (arg_dummy a); reflexivity.
Qed.

Lemma init_increasing_step (now : float) (a : EntryArgs) :
  condition_of a = IncreasingStep Condition ->
  Entry__init__ now a =
  match parse_all py (str_split ":" (arg_alarm_values a)) with
  | Some vals =>
      if has_descent vals then Raise (AttributeError "_pv")
      else Return (set__pv (pv_of a)
                     (set_max_level (Z.of_nat (List.length vals))
                        (set_min_level 0
                           (set_step_values vals
                              (set_step_level 0 (Entry__init__head now a))))))
  | None => Raise ValueError
  end.
Proof.
  unfold Model.condition_of. intros H. names.
  unfold Model.Entry__init__, Entry__init__tail. run. rewrite H.
  eqb_names. unfold _init_increasing_step. run.
  rewrite floats_of_spec.
  pose proof (str_split_not_nil ":" (arg_alarm_values a)) as Hne.
  destruct (parse_all py (str_split ":" (arg_alarm_values a))) as [vals|] eqn:Hp;
    [|reflexivity].
  pose proof (parse_all_length _ _ Hp) as Hlen.
  destruct vals as [|s rest].
  { destruct (str_split ":" (arg_alarm_values a)); [congruence|discriminate]. }
  remember (has_descent (s :: rest)) as d eqn:Hd.
  simpl. rewrite check_sorted_spec by reflexivity. rewrite <- Hd.
  destruct d; simpl; [reflexivity|].
  unfold Model.pv_of. destruct (arg_dummy a); reflexivity.
Qed.

(** ** The step level *)

Lemma handle_increasing_step_level (value : float) (e : Entry) :
  forall r e', handle_increasing_step py value e = (r, e') ->
               step_level e' = step_level e \/
               step_level e' = _find_next_level e value.
Proof.
  intros r e'. unfold handle_increasing_step. run.
  repeat (case_match; run);
    intros H; inversion H; subst; clear H; simpl; auto.
Qed.

Lemma violation_message_level (value : float) (e : Entry) :
  forall r e', violation_message value e = (r, e') ->
               step_level e' = step_level e \/
               step_level e' = _find_next_level e value.
Proof.
  intros r e'. unfold Model.violation_message. run.
  repeat (case_match; run);
    try apply handle_increasing_step_level;
    intros H; inversion H; subst; auto.
Qed.

Lemma handle_condition_level (value : float) (e : Entry) :
  forall r e', handle_condition value e = (r, e') ->
               step_level e' = step_level e \/
               step_level e' = _find_next_level e value.
Proof.
  intros r e'. unfold Model.handle_condition, bind.
  destruct (violation_message value e) as [[m|x] e1] eqn:Hm.
  - destruct (make_event_frame value m e1) as [r1 Hr1]. rewrite Hr1.
    intros H; inversion H; subst. eapply violation_message_level; eauto.
  - intros H; inversion H; subst. eapply violation_message_level; eauto.
Qed.

(** What [check_alarms] can do to the entry: nothing, or what
    [handle_condition] does, possibly followed by the assignment to
    [last_event_time]. *)
Lemma check_alarms_entry (timestamp : float) (connected : bool) (value : float)
      (w : World) :
  let w' := snd (check_alarms timestamp connected value w) in
  entry w' = entry w \/
  entry w' = snd (handle_condition value (entry w)) \/
  entry w' = set_last_event_time timestamp (snd (handle_condition value (entry w))).
Proof.
  unfold Model.check_alarms. run.
  destruct (enabled (group (entry w))); simpl; auto.
  destruct (_pv (entry w)) as [[n|n]|]; simpl; auto.
  destruct connected; simpl; auto.
  case_match; simpl; auto.
  destruct (handle_condition value (entry w)) as [[[ev|]|x] e1]; simpl; auto.
  - unfold put_nowait. case_match; simpl; auto.
  - destruct x; simpl; auto.
Qed.

Lemma handle_condition_in_range (value : float) (e : Entry) :
  level_in_range e ->
  level_in_range (snd (handle_condition value e)) /\
  step_values (snd (handle_condition value e)) = step_values e.
Proof.
  intros Hr. destruct (handle_condition value e) as [r e'] eqn:H. simpl.
  pose proof (handle_condition_frame _ _ _ _ H) as Hf.
  pose proof (handle_condition_level _ _ _ _ H) as Hl.
  assert (Hv : step_values e' = step_values e) by (rewrite Hf; reflexivity).
  split; [|exact Hv].
  unfold level_in_range in *. rewrite Hv.
  destruct Hl as [Hl|Hl]; rewrite Hl; [exact Hr|].
  pose proof (_find_next_level_loop_range value (step_values e) 0).
  unfold _find_next_level. lia.
Qed.

Lemma perform_in_range (act : action) (w : World) :
  level_in_range (entry w) ->
  level_in_range (entry (perform act w)) /\
  step_values (entry (perform act w)) = step_values (entry w) /\
  max_level (entry (perform act w)) = max_level (entry w).
Proof.
  intros Hr. destruct act as [timestamp connected value|b|]; simpl.
  - pose proof (handle_condition_in_range value (entry w) Hr) as [Hh Hv].
    assert (Hm : max_level (snd (handle_condition value (entry w)))
                 = max_level (entry w)).
    { destruct (handle_condition value (entry w)) as [r e'] eqn:H. simpl.
      rewrite (handle_condition_frame _ _ _ _ H). reflexivity. }
    destruct (check_alarms_entry timestamp connected value w) as [H|[H|H]];
      rewrite H; auto.
  - auto.
  - auto.
Qed.

Lemma perform_all_in_range (acts : list action) (w : World) :
  level_in_range (entry w) ->
  level_in_range (entry (perform_all acts w)) /\
  step_values (entry (perform_all acts w)) = step_values (entry w) /\
  max_level (entry (perform_all acts w)) = max_level (entry w).
Proof.
  revert w. induction acts as [|act acts IH]; intros w Hr; simpl.
  - auto.
  - destruct (perform_in_range act w Hr) as (H1 & H2 & H3).
    destruct (IH _ H1) as (H4 & H5 & H6).
    rewrite <- H2, <- H3. auto.
Qed.

(** ** Concurrent callbacks *)

Lemma nth_error_replace_nth_eq {A : Type} (l : list A) (i : nat) (x y : A) :
  nth_error l i = Some y -> nth_error (replace_nth i x l) i = Some x.
Proof.
  revert i. induction l as [|z l IH]; intros [|i]; simpl; try discriminate; auto.
Qed.

Lemma nth_error_replace_nth_neq {A : Type} (l : list A) (i j : nat) (x : A) :
  i <> j -> nth_error (replace_nth i x l) j = nth_error l j.
Proof.
  revert i j. induction l as [|z l IH]; intros [|i] [|j] H; simpl; auto.
  congruence.
Qed.

(** A step either takes the free lock, or gives it back, or leaves it and
    stays on its side of the block. *)
Lemma thread_step_lock (i : nat) (t t' : Thread) (w w' : World) (l l' : option nat) :
  thread_step i t w l = Some (t', w', l') ->
  (l = None /\ l' = Some i /\
   holds_lock (t_pc t) = false /\ holds_lock (t_pc t') = true)
  \/ (l' = None /\ holds_lock (t_pc t) = true /\ holds_lock (t_pc t') = false)
  \/ (l' = l /\ holds_lock (t_pc t') = holds_lock (t_pc t)).
Proof.
  unfold Model.thread_step. destruct (t_pc t) eqn:Hpc; run;
    repeat case_match; intros H; inversion H; subst; simpl; auto.
Qed.

(** Outside the block a step leaves the entry and the queue as they are. *)
Lemma thread_step_outside (i : nat) (t t' : Thread) (w w' : World) (l l' : option nat) :
  thread_step i t w l = Some (t', w', l') ->
  holds_lock (t_pc t) = false ->
  w' = w.
Proof.
  unfold Model.thread_step. destruct (t_pc t) eqn:Hpc; run;
    repeat case_match; intros H; inversion H; subst; simpl; auto;
    discriminate.
Qed.

Lemma step_lock_discipline (i : nat) (s s' : System) :
  step i s = Some s' -> lock_discipline s -> lock_discipline s'.
Proof.
  unfold Model.step.
  destruct (nth_error (threads s) i) as [t|] eqn:Ht; [|discriminate].
  destruct (thread_step i t (shared s) (lock s)) as [[[t' w'] l']|] eqn:Hs;
    [|discriminate].
  intros H Hinv; inversion H; subst; clear H.
  pose proof (Hinv i t Ht) as Hi.
  intros j u Hu. simpl in *.
  destruct (Nat.eq_dec i j) as [->|Hij].
  - rewrite (nth_error_replace_nth_eq _ _ _ _ Ht) in Hu.
    inversion Hu; subst u; clear Hu.
    destruct (thread_step_lock _ _ _ _ _ _ _ Hs)
      as [(Hl & Hl' & Hb & Ha)|[(Hl' & Hb & Ha)|(Hl' & Ha)]].
    + rewrite Ha, Hl'. tauto.
    + rewrite Ha, Hl'. split; discriminate.
    + rewrite Ha, Hl'. exact Hi.
  - rewrite (nth_error_replace_nth_neq _ _ _ _ Hij) in Hu.
    pose proof (Hinv j u Hu) as Hj.
    destruct (thread_step_lock _ _ _ _ _ _ _ Hs)
      as [(Hl & Hl' & Hb & Ha)|[(Hl' & Hb & Ha)|(Hl' & Ha)]].
    + rewrite Hl'. rewrite Hl in Hj. split.
      * intros Hh. apply Hj in Hh. discriminate.
      * intros Hh. inversion Hh. congruence.
    + rewrite Hl'. apply Hi in Hb. rewrite Hb in Hj. split.
      * intros Hh. apply Hj in Hh. inversion Hh. congruence.
      * discriminate.
    + rewrite Hl'. exact Hj.
Qed.

Lemma run_lock_discipline (schedule : list nat) (s s' : System) :
  run schedule s = Some s' -> lock_discipline s -> lock_discipline s'.
Proof.
  revert s. induction schedule as [|i rest IH]; intros s; simpl.
  - intros H; inversion H; subst. auto.
  - destruct (step i s) as [s1|] eqn:Hs; [|discriminate].
    intros Hr Hinv. apply (IH s1 Hr). eapply step_lock_discipline; eauto.
Qed.

Lemma start_lock_discipline (w : World) (calls : list (float * bool * float)) :
  lock_discipline (start w calls).
Proof.
  intros i t Ht. unfold start in *. simpl in *.
  rewrite nth_error_map in Ht.
  destruct (nth_error calls i) as [[[ts c] v]|]; [|discriminate].
  inversion Ht; subst; simpl. split; discriminate.
Qed.

(** One thread alone does what [check_alarms] does. *)
Lemma one_thread_is_check_alarms (timestamp : float) (connected : bool)
      (value : float) (w : World) :
  exists n,
    run (repeat O n) (start w [(timestamp, connected, value)])
    = Some {| shared := snd (check_alarms timestamp connected value w);
              lock := None;
              threads := [ {| t_timestamp := timestamp; t_connected := connected;
                              t_value := value;
                              t_pc := Done (fst (check_alarms timestamp connected value w)) |} ] |}.
Proof.
  unfold Model.check_alarms, start. run.
  destruct (enabled (group (entry w))) eqn:Hg.
  2:{ exists 1%nat. simpl. unfold Model.step, Model.thread_step. simpl.
      rewrite Hg. simpl. destruct w; reflexivity. }
  simpl.
  destruct (_pv (entry w)) as [[pvn|pvn]|] eqn:Hpv; simpl.
  3:{ exists 2%nat. simpl. unfold Model.step, Model.thread_step. simpl.
      rewrite Hg. simpl. run. rewrite Hpv. simpl. destruct w; reflexivity. }
  2:{ exists 2%nat. simpl. unfold Model.step, Model.thread_step. simpl.
      rewrite Hg. simpl. run. rewrite Hpv. simpl. destruct w; reflexivity. }
  destruct connected; simpl.
  2:{ exists 2%nat. simpl. unfold Model.step, Model.thread_step. simpl.
      rewrite Hg. simpl. run. rewrite Hpv. simpl. destruct w; reflexivity. }
  destruct (flt (PrimFloat.sub timestamp (last_event_time (entry w)))
                (email_timeout (entry w))) eqn:Ht.
  { exists 3%nat. simpl. unfold Model.step, Model.thread_step. simpl.
    rewrite Hg. simpl. run. rewrite Hpv. simpl. rewrite Ht.
    destruct w; reflexivity. }
  destruct (handle_condition value (entry w)) as [[[ev|]|x] e1] eqn:Hh; simpl.
  - unfold put_nowait. simpl.
    destruct (List.length (items (sms_queue w)) <? maxsize (sms_queue w))%nat eqn:Hq.
    + exists 8%nat. simpl. unfold Model.step, Model.thread_step. simpl.
      rewrite Hg. simpl. run. rewrite Hpv. simpl. rewrite Ht. simpl.
      rewrite Hh. simpl. unfold put_nowait. simpl. rewrite Hq. reflexivity.
    + exists 7%nat. simpl. unfold Model.step, Model.thread_step. simpl.
      rewrite Hg. simpl. run. rewrite Hpv. simpl. rewrite Ht. simpl.
      rewrite Hh. simpl. unfold put_nowait. simpl. rewrite Hq. reflexivity.
  - exists 6%nat. simpl. unfold Model.step, Model.thread_step. simpl.
    rewrite Hg. simpl. run. rewrite Hpv. simpl. rewrite Ht. simpl.
    rewrite Hh. reflexivity.
  - exists 6%nat. simpl. unfold Model.step, Model.thread_step. simpl.
    rewrite Hg. simpl. run. rewrite Hpv. simpl. rewrite Ht. simpl.
    rewrite Hh. simpl. destruct x; reflexivity.
Qed.

(** * The claims *)

(** C9. Disabled group: when the group of the entry has [enabled = false],
    [check_alarms] returns nothing whatever the sample, the time and the
    connection, and leaves the entry ([last_event_time], [step_level] and
    every other attribute) and the queue exactly as they were. *)
Theorem disabled_group_changes_nothing
        (timestamp : float) (connected : bool) (value : float) (w : World) :
  enabled (group (entry w)) = false ->
  check_alarms timestamp connected value w = (Return PyNone, w) /\
  last_event_time (entry (snd (check_alarms timestamp connected value w)))
  = last_event_time (entry w) /\
  step_level (entry (snd (check_alarms timestamp connected value w)))
  = step_level (entry w).
Proof.
  intros H. rewrite (check_alarms_disabled _ _ _ _ H). auto.
Qed.

(** C7, as amended. Debounce. For an entry on a live PV: when the time
    elapsed since [last_event_time] is less than [email_timeout],
    [check_alarms] returns nothing and changes nothing. Consequently, after
    a violating sample at [t0] whose event the queue has taken, so that
    [last_event_time] is [t0], a second violating sample at [t1] adds no
    event when [t1 - t0 < email_timeout] (one event in all) and, when not,
    adds its event if the queue has room (two events in all). *)
Theorem debounce (t0 t1 v1 v2 : float) (w : World) (n : string) :
  _pv (entry w) = Some (EpicsPV n) ->
  (forall timestamp connected value,
      flt (PrimFloat.sub timestamp (last_event_time (entry w)))
          (email_timeout (entry w)) = true ->
      check_alarms timestamp connected value w = (Return PyNone, w)) /\
  (forall ev1 e1,
      enabled (group (entry w)) = true ->
      flt (PrimFloat.sub t0 (last_event_time (entry w)))
          (email_timeout (entry w)) = false ->
      handle_condition v1 (entry w) = (Return (Some ev1), e1) ->
      (List.length (items (sms_queue w)) < maxsize (sms_queue w))%nat ->
      let w1 := snd (check_alarms t0 true v1 w) in
      items (sms_queue w1) = (items (sms_queue w) ++ [ev1])%list /\
      last_event_time (entry w1) = t0 /\
      (flt (PrimFloat.sub t1 t0) (email_timeout (entry w)) = true ->
       forall connected,
         check_alarms t1 connected v2 w1 = (Return PyNone, w1)) /\
      (flt (PrimFloat.sub t1 t0) (email_timeout (entry w)) = false ->
       forall ev2 e2,
         handle_condition v2 (entry w1) = (Return (Some ev2), e2) ->
         (S (List.length (items (sms_queue w))) < maxsize (sms_queue w))%nat ->
         items (sms_queue (snd (check_alarms t1 true v2 w1)))
         = (items (sms_queue w) ++ [ev1; ev2])%list)).
Proof.
  intros Hpv. split.
  - intros timestamp connected value Ht.
    eapply check_alarms_debounced; eauto.
  - intros ev1 e1 Hg Ht0 Hh Hroom.
    rewrite (check_alarms_enqueue _ _ _ _ _ _ Hg Hpv Ht0 Hh Hroom). simpl.
    pose proof (handle_condition_frame _ _ _ _ Hh) as Hf.
    assert (Hpv1 : _pv e1 = Some (EpicsPV n)) by (rewrite Hf; exact Hpv).
    assert (Hg1 : enabled (group e1) = true) by (rewrite Hf; exact Hg).
    assert (HT : email_timeout e1 = email_timeout (entry w))
      by (rewrite Hf; reflexivity).
    split; [reflexivity|]. split; [reflexivity|]. split.
    + intros Ht1 connected.
      eapply check_alarms_debounced; simpl; eauto.
      rewrite HT. exact Ht1.
    + intros Ht1 ev2 e2 Hh2 Hroom2.
      erewrite check_alarms_enqueue; simpl; eauto.
      * rewrite <- app_assoc. reflexivity.
      * rewrite HT. exact Ht1.
      * rewrite length_app. simpl. lia.
Qed.

(** C1, as amended. Past the three guards, when [handle_condition] returns an
    event, [check_alarms] returns normally; [last_event_time] becomes the
    time of the evaluation when the queue takes the event, and keeps its
    value, the event being dropped, when the queue is full. *)
Theorem last_event_time_follows_the_queue
        (timestamp value : float) (w : World) (n : string)
        (ev : EmailEvent) (e1 : Entry) :
  enabled (group (entry w)) = true ->
  _pv (entry w) = Some (EpicsPV n) ->
  flt (PrimFloat.sub timestamp (last_event_time (entry w)))
      (email_timeout (entry w)) = false ->
  handle_condition value (entry w) = (Return (Some ev), e1) ->
  let r := fst (check_alarms timestamp true value w) in
  let w' := snd (check_alarms timestamp true value w) in
  r = Return PyNone /\
  if (List.length (items (sms_queue w)) <? maxsize (sms_queue w))%nat
  then last_event_time (entry w') = timestamp /\
       items (sms_queue w') = (items (sms_queue w) ++ [ev])%list
  else last_event_time (entry w') = last_event_time (entry w) /\
       sms_queue w' = sms_queue w.
Proof.
  intros Hg Hpv Ht Hh.
  pose proof (handle_condition_frame _ _ _ _ Hh) as Hf.
  destruct (Nat.ltb_spec (List.length (items (sms_queue w))) (maxsize (sms_queue w)))
    as [Hroom|Hfull].
  - rewrite (check_alarms_enqueue _ _ _ _ _ _ Hg Hpv Ht Hh Hroom). simpl. auto.
  - rewrite (check_alarms_queue_full _ _ _ _ _ _ Hg Hpv Ht Hh Hfull). simpl.
    rewrite Hf. auto.
Qed.

(** C2, what the code does. For an IncreasingStep entry whose [step_level]
    is the number of thresholds, [handle_condition] raises [IndexError] on
    every sample, at the subscript of the next threshold; the entry is left
    as it was, no event is built, and [check_alarms] lets the exception
    through. *)
Theorem ceiling_raises_IndexError
        (timestamp value : float) (w : World) (n : string) :
  condition (entry w) = IncreasingStep Condition ->
  step_level (entry w) = Z.of_nat (List.length (step_values (entry w))) ->
  handle_condition value (entry w) = (Raise IndexError, entry w) /\
  (enabled (group (entry w)) = true ->
   _pv (entry w) = Some (EpicsPV n) ->
   flt (PrimFloat.sub timestamp (last_event_time (entry w)))
       (email_timeout (entry w)) = false ->
   check_alarms timestamp true value w = (Raise IndexError, w)).
Proof.
  intros Hc Hl.
  assert (Hh : handle_condition value (entry w) = (Raise IndexError, entry w)).
  { apply handle_condition_raises.
    rewrite violation_message_increasing_step by exact Hc.
    apply handle_increasing_step_ceiling. exact Hl. }
  split; [exact Hh|].
  intros Hg Hpv Ht.
  rewrite (check_alarms_raises _ _ _ _ _ _ Hg Hpv Ht Hh) by discriminate.
  destruct w; reflexivity.
Qed.

(** C3, what the code does. An entry built from a SuperiorThan
    configuration has [alarm_max] and no [alarm_min]. A sample violates the
    condition exactly when it is greater than [alarm_max]; on a violation
    [handle_condition] raises [AttributeError] while formatting the message,
    which reads [alarm_min]; otherwise it returns no event. The entry is
    left as it was in both cases. *)
Theorem superior_than_reads_alarm_min
        (now value : float) (a : EntryArgs) (e : Entry) :
  condition_of a = SuperiorThan Condition ->
  Entry__init__ now a = Return e ->
  exists hi,
    float_of_str py (arg_alarm_values a) = Some hi /\
    alarm_max e = Some hi /\
    alarm_min e = None /\
    handle_condition value e =
    (if fgt value hi then Raise (AttributeError "alarm_min") else Return None, e).
Proof.
  intros Hc Hi. rewrite (init_superior_than _ _ Hc) in Hi.
  destruct (float_of_str py (arg_alarm_values a)) as [hi|]; [|discriminate].
  inversion Hi; subst; clear Hi. exists hi.
  repeat split. names.
  unfold Model.condition_of in Hc.
  destruct (fgt value hi) eqn:Hv.
  - apply handle_condition_raises.
    unfold Model.violation_message. run. rewrite Hc. eqb_names.
    simpl. rewrite Hv. reflexivity.
  - apply handle_condition_of_message.
    unfold Model.violation_message. run. rewrite Hc. eqb_names.
    simpl. rewrite Hv. simpl. eqb_names. reflexivity.
Qed.

(** C4, as amended. A configuration with an unsupported condition name
    (DecreasingStep is one), with malformed numeric parameters, with a step
    threshold greater than or equal to its successor, or with range bounds
    [min >= max] makes [Entry(...)] raise: no entry is created. For malformed
    numeric parameters the exception is the [ValueError] of the conversion,
    not [EntryException]. *)
Theorem bad_configuration_creates_no_entry (now : float) (a : EntryArgs) :
  unsupported_condition a || malformed_numbers a
  || thresholds_not_increasing a || range_inverted a = true ->
  (exists x, Entry__init__ now a = Raise x) /\
  (malformed_numbers a = true -> Entry__init__ now a = Raise ValueError) /\
  (condition_of a = DecreasingStep Condition -> unsupported_condition a = true).
Proof.
  intros Hbad. names.
  unfold Model.unsupported_condition, Model.malformed_numbers,
    Model.thresholds_not_increasing, Model.range_inverted in *.
  split; [|split].
  - destruct (supported (condition_of a)) eqn:Hs.
    + unfold Model.supported in Hs.
      destruct (String.eqb_spec (condition_of a) (OutOfRange Condition)) as [Ho|Ho].
      { rewrite (init_out_of_range _ _ Ho).
        try rewrite Ho in Hbad. revert Hbad. eqb_names. simpl.
        destruct (str_split ":" (arg_alarm_values a)) as [|lo_s [|hi_s [|? ?]]];
          simpl; eauto.
        destruct (float_of_str py lo_s), (float_of_str py hi_s); simpl; eauto.
        intros ->. eauto. }
      destruct (String.eqb_spec (condition_of a) (SuperiorThan Condition)) as [Hsup|Hsup].
      { rewrite (init_superior_than _ _ Hsup).
        try rewrite Hsup in Hbad. revert Hbad. eqb_names. simpl.
        destruct (float_of_str py (arg_alarm_values a)); simpl; eauto.
        discriminate. }
      destruct (String.eqb_spec (condition_of a) (InferiorThan Condition)) as [Hinf|Hinf].
      { rewrite (init_inferior_than _ _ Hinf).
        try rewrite Hinf in Hbad. revert Hbad. eqb_names. simpl.
        destruct (float_of_str py (arg_alarm_values a)); simpl; eauto.
        discriminate. }
      destruct (String.eqb_spec (condition_of a) (IncreasingStep Condition)) as [Hinc|Hinc].
      { rewrite (init_increasing_step _ _ Hinc).
        try rewrite Hinc in Hbad. revert Hbad. eqb_names. simpl.
        destruct (parse_all py (str_split ":" (arg_alarm_values a))); simpl; eauto.
        rewrite orb_false_r. intros ->. eauto. }
      discriminate.
    + rewrite (init_unsupported _ _ Hs). eauto.
  - destruct (String.eqb_spec (condition_of a) (OutOfRange Condition)) as [Ho|Ho].
    { rewrite (init_out_of_range _ _ Ho).
      destruct (str_split ":" (arg_alarm_values a)) as [|lo_s [|hi_s [|? ?]]];
        simpl; auto.
      destruct (float_of_str py lo_s), (float_of_str py hi_s); simpl; auto.
      discriminate. }
    destruct (String.eqb_spec (condition_of a) (SuperiorThan Condition)) as [Hsup|Hsup].
    { rewrite (init_superior_than _ _ Hsup). simpl.
      destruct (float_of_str py (arg_alarm_values a)); simpl; auto. discriminate. }
    destruct (String.eqb_spec (condition_of a) (InferiorThan Condition)) as [Hinf|Hinf].
    { rewrite (init_inferior_than _ _ Hinf). simpl.
      destruct (float_of_str py (arg_alarm_values a)); simpl; auto. discriminate. }
    destruct (String.eqb_spec (condition_of a) (IncreasingStep Condition)) as [Hinc|Hinc].
    { rewrite (init_increasing_step _ _ Hinc). simpl.
      destruct (parse_all py (str_split ":" (arg_alarm_values a))); simpl; auto.
      discriminate. }
    simpl. discriminate.
  - intros Hd. unfold Model.supported. rewrite Hd. eqb_names. reflexivity.
Qed.

Lemma _find_next_level_least (value : float) (e : Entry) :
  let lvl := _find_next_level e value in
  0 <= lvl <= Z.of_nat (List.length (step_values e)) /\
  (forall i x, 0 <= i < lvl -> list_index (step_values e) i = Some x ->
               flt value x = false) /\
  (lvl < Z.of_nat (List.length (step_values e)) ->
   exists x, list_index (step_values e) lvl = Some x /\ flt value x = true).
Proof.
  unfold _find_next_level.
  pose proof (_find_next_level_loop_range value (step_values e) 0) as Hr.
  pose proof (_find_next_level_loop_least value (step_values e) 0) as [H1 H2].
  simpl in *.
  set (lvl := _find_next_level_loop value (step_values e) 0) in *.
  rewrite Z.sub_0_r in *.
  split; [lia|]. split.
  - intros i x Hi Hx. rewrite list_index_nat in Hx by lia.
    apply (H1 (Z.to_nat i) x); [lia | exact Hx].
  - intros Hlt. rewrite list_index_nat by lia. apply H2. exact Hlt.
Qed.

(** C6. Step ascent. For an IncreasingStep entry below the ceiling and a
    sample at or above the threshold of its level, the evaluation sets
    [step_level] to the least subscript whose threshold is above the sample
    (the number of thresholds when there is none) and produces one message,
    which names the first threshold, and from it one event, however many
    levels are skipped. With thresholds 1.5, 2.0, 2.5, 3.0 at level 0, the
    sample 2.7 gives level 3 and one event on the queue; a later sample 1.0
    gives level 0 and no event. *)
Theorem step_ascent :
  (forall (value next : float) (e : Entry) (pv : PV),
      condition e = IncreasingStep Condition ->
      max_level e = Some (Z.of_nat (List.length (step_values e))) ->
      _pv e = Some pv ->
      0 <= step_level e < Z.of_nat (List.length (step_values e)) ->
      list_index (step_values e) (step_level e) = Some next ->
      fge value next = true ->
      exists floor,
        list_index (step_values e) 0 = Some floor /\
        let lvl := _find_next_level e value in
        let message := "lower than " ++ str_of_float py floor ++ unit e in
        violation_message value e
        = (Return (Some message), set_step_level lvl e) /\
        handle_condition value e
        = (Return (match EmailEvent_error (event_of value message pv e) with
                   | None => Some (event_of value message pv e)
                   | Some _ => None
                   end), set_step_level lvl e) /\
        0 <= lvl <= Z.of_nat (List.length (step_values e)) /\
        (forall i x, 0 <= i < lvl -> list_index (step_values e) i = Some x ->
                     flt value x = false) /\
        (lvl < Z.of_nat (List.length (step_values e)) ->
         exists x, list_index (step_values e) lvl = Some x /\ flt value x = true)) /\
  (forall (t0 t1 : float) (w : World) (n : string),
      condition (entry w) = IncreasingStep Condition ->
      step_values (entry w) = [1.5; 2.0; 2.5; 3.0]%float ->
      step_level (entry w) = 0 ->
      min_level (entry w) = Some 0 ->
      max_level (entry w) = Some 4 ->
      enabled (group (entry w)) = true ->
      _pv (entry w) = Some (EpicsPV n) ->
      (forall args, EmailEvent_error args = None) ->
      (List.length (items (sms_queue w)) < maxsize (sms_queue w))%nat ->
      flt (PrimFloat.sub t0 (last_event_time (entry w)))
          (email_timeout (entry w)) = false ->
      flt (PrimFloat.sub t1 t0) (email_timeout (entry w)) = false ->
      let w1 := perform (Callback t0 true 2.7%float) w in
      let w2 := perform (Callback t1 true 1.0%float) w1 in
      step_level (entry w1) = 3 /\
      (exists ev, items (sms_queue w1) = (items (sms_queue w) ++ [ev])%list) /\
      step_level (entry w2) = 0 /\
      items (sms_queue w2) = items (sms_queue w1)).
Proof.
  split.
  - intros value next e pv Hc Hmax Hpv Hl Hnext Hge.
    assert (Hfloor : exists floor, list_index (step_values e) 0 = Some floor).
    { rewrite list_index_nat by lia. simpl.
      destruct (step_values e); simpl in *; [lia|eauto]. }
    destruct Hfloor as [floor Hfloor]. exists floor.
    split; [exact Hfloor|].
    assert (Hm : violation_message value e
                 = (Return (Some ("lower than " ++ str_of_float py floor ++ unit e)),
                    set_step_level (_find_next_level e value) e)).
    { rewrite violation_message_increasing_step by exact Hc.
      eapply handle_increasing_step_up; eauto. lia. }
    split; [exact Hm|]. split.
    + apply handle_condition_message; [exact Hm|reflexivity|exact Hpv].
    + apply _find_next_level_least.
  - intros t0 t1 w n Hc Hv Hl Hmin Hmax Hg Hpv Hacc Hroom Ht0 Ht1. simpl.
    assert (Hm : violation_message 2.7%float (entry w)
                 = (Return (Some ("lower than " ++ str_of_float py 1.5%float
                                  ++ unit (entry w))),
                    set_step_level 3 (entry w))).
    { rewrite violation_message_increasing_step by exact Hc.
      erewrite handle_increasing_step_up with (next := 1.5%float) (floor := 1.5%float).
      - unfold _find_next_level. rewrite Hv. reflexivity.
      - rewrite Hv, Hmax. reflexivity.
      - rewrite Hv, Hl. reflexivity.
      - rewrite Hv. reflexivity.
      - lia.
      - reflexivity. }
    pose proof (handle_condition_message _ _ _ _ _ Hm eq_refl Hpv) as Hh.
    rewrite Hacc in Hh.
    rewrite (check_alarms_enqueue _ _ _ _ _ _ Hg Hpv Ht0 Hh Hroom). simpl.
    split; [reflexivity|]. split; [eexists; reflexivity|].
    match goal with
    | |- context [check_alarms t1 true 1.0%float ?x] => set (w1 := x)
    end.
    assert (Hd : handle_condition 1.0%float (entry w1)
                 = (Return None, set_step_level 0 (entry w1))).
    { apply handle_condition_of_message.
      rewrite violation_message_increasing_step by exact Hc.
      erewrite handle_increasing_step_down
        with (next := 3.0%float) (below := 2.5%float).
      - unfold _find_next_level. simpl. rewrite Hv. reflexivity.
      - exact Hmin.
      - simpl. rewrite Hv. reflexivity.
      - simpl. rewrite Hv. reflexivity.
      - simpl. lia.
      - reflexivity.
      - reflexivity. }
    rewrite (check_alarms_no_event t1 1.0%float w1 n (set_step_level 0 (entry w1)));
      [split; reflexivity | exact Hg | exact Hpv | exact Ht1 | exact Hd].
Qed.

(** C8. The level stays on the stair. An entry built from an IncreasingStep
    configuration starts with [step_level = 0] and [max_level] the number of
    thresholds; whatever happens to it afterwards (callbacks with any
    sample, time and connection, whether they return or raise, switches of
    the group, the dispatcher), [step_level] stays between 0 and the number
    of thresholds, which does not change; and every level that
    [_find_next_level] computes is in that range. *)
Theorem step_level_stays_in_range
        (now : float) (a : EntryArgs) (e : Entry) :
  condition_of a = IncreasingStep Condition ->
  Entry__init__ now a = Return e ->
  step_level e = 0 /\
  max_level e = Some (Z.of_nat (List.length (step_values e))) /\
  forall (q : Queue) (acts : list action),
    let w := perform_all acts {| entry := e; sms_queue := q |} in
    0 <= step_level (entry w) <= Z.of_nat (List.length (step_values (entry w))) /\
    step_values (entry w) = step_values e /\
    max_level (entry w) = Some (Z.of_nat (List.length (step_values e))) /\
    forall value,
      0 <= _find_next_level (entry w) value
      <= Z.of_nat (List.length (step_values (entry w))).
Proof.
  intros Hc Hi. rewrite (init_increasing_step _ _ Hc) in Hi.
  destruct (parse_all py (str_split ":" (arg_alarm_values a))) as [vals|];
    [|discriminate].
  destruct (has_descent vals); [discriminate|].
  inversion Hi; subst; clear Hi. simpl.
  split; [reflexivity|]. split; [reflexivity|].
  intros q acts.
  match goal with
  | |- context [perform_all acts ?x] => set (w0 := x)
  end.
  assert (H0 : level_in_range (entry w0)).
  { unfold level_in_range. simpl. lia. }
  destruct (perform_all_in_range acts w0 H0) as (H1 & H2 & H3).
  split; [exact H1|]. split; [exact H2|]. split; [exact H3|].
  intros value. apply _find_next_level_least.
Qed.

(** C10, as amended. Whatever the interleaving of concurrent callbacks on
    an entry: at most one thread is inside the [with self.lock:] block; every
    step that changes [last_event_time] or [step_level] is taken by the
    thread that holds the lock, so the condition check and all mutation run
    under it; and the check of the timeout (guard 3), like guards 1 and 2,
    is made before the lock is taken and never waits for it. *)
Theorem lock_covers_the_mutation
        (w : World) (calls : list (float * bool * float))
        (schedule : list nat) (s : System) :
  run schedule (start w calls) = Some s ->
  (forall i j ti tj,
      nth_error (threads s) i = Some ti ->
      nth_error (threads s) j = Some tj ->
      holds_lock (t_pc ti) = true ->
      holds_lock (t_pc tj) = true ->
      i = j) /\
  (forall i s',
      step i s = Some s' ->
      last_event_time (entry (shared s')) <> last_event_time (entry (shared s))
      \/ step_level (entry (shared s')) <> step_level (entry (shared s)) ->
      lock s = Some i) /\
  (forall i t,
      nth_error (threads s) i = Some t ->
      t_pc t = AtTimeout ->
      exists s', step i s = Some s' /\ lock s' = lock s /\ shared s' = shared s).
Proof.
  intros Hrun.
  pose proof (run_lock_discipline _ _ _ Hrun (start_lock_discipline w calls)) as Hinv.
  split; [|split].
  - intros i j ti tj Hi Hj Hhi Hhj.
    apply (Hinv i ti Hi) in Hhi. apply (Hinv j tj Hj) in Hhj.
    congruence.
  - intros i s' Hstep Hchange. unfold Model.step in Hstep.
    destruct (nth_error (threads s) i) as [t|] eqn:Ht; [|discriminate].
    destruct (thread_step i t (shared s) (lock s)) as [[[t' w'] l']|] eqn:Hs;
      [|discriminate].
    inversion Hstep; subst s'; clear Hstep. simpl in Hchange.
    destruct (holds_lock (t_pc t)) eqn:Hh.
    + apply (Hinv i t Ht). exact Hh.
    + rewrite (thread_step_outside _ _ _ _ _ _ _ Hs Hh) in Hchange.
      destruct Hchange as [Hc|Hc]; contradiction Hc; reflexivity.
  - intros i t Ht Hpc. unfold Model.step, Model.thread_step.
    rewrite Ht, Hpc.
    destruct (flt (PrimFloat.sub (t_timestamp t) (last_event_time (entry (shared s))))
                  (email_timeout (entry (shared s))));
      eexists; split; try reflexivity; simpl; auto.
Qed.

(** * More of the module *)

(** ** The order of floats *)

Lemma SFltb_trans (x y z : spec_float) :
  SFltb x y = true -> SFltb y z = true -> SFltb x z = true.
Proof.
  unfold SFltb, SFcompare.
  destruct x as [[]|[]| |[] mx ex], y as [[]|[]| |[] my ey], z as [[]|[]| |[] mz ez];
    simpl; try discriminate; try reflexivity;
    rewrite ?Pos.compare_cont_spec; simpl;
    destruct (Z.compare_spec ex ey), (Z.compare_spec ey ez), (Z.compare_spec ex ez);
    simpl; try discriminate; try reflexivity; try lia; subst;
    destruct (Pos.compare_spec mx my), (Pos.compare_spec my mz), (Pos.compare_spec mx mz);
    simpl; try discriminate; try reflexivity; try lia.
Qed.

Lemma flt_trans (a b c : float) :
  flt a b = true -> flt b c = true -> flt a c = true.
Proof. unfold flt. rewrite !ltb_spec. apply SFltb_trans. Qed.

Lemma flt_not_fge (a b : float) : flt a b = true -> fge a b = false.
Proof.
  intros H. destruct (fge a b) eqn:E; [|reflexivity].
  apply fge_not_flt in E. congruence.
Qed.

Lemma Prim2SF_nan (v : float) : is_nan v = true -> Prim2SF v = S754_nan.
Proof. intros H. unfold Prim2SF. rewrite H. reflexivity. Qed.

Lemma SFcompare_nan_r (x : spec_float) : SFcompare x S754_nan = None.
Proof. destruct x; reflexivity. Qed.

(** A NaN is neither less than, nor greater than, nor at least any float. *)
Lemma nan_compares_false (v x : float) :
  is_nan v = true -> flt v x = false /\ fgt v x = false /\ fge v x = false.
Proof.
  intros H. unfold flt, fgt, fge. rewrite !ltb_spec, leb_spec.
  rewrite (Prim2SF_nan v H). unfold SFltb, SFleb.
  rewrite SFcompare_nan_r. auto.
Qed.

(** ** Construction, when it succeeds *)

(** What [__init__] stores of its arguments in the entry it returns. *)
Lemma init_configuration (now : float) (a : EntryArgs) (e : Entry) :
  Entry__init__ now a = Return e ->
  _pv e = Some (pv_of a) /\
  _id e = arg__id a /\
  condition e = condition_of a /\
  alarm_values e = arg_alarm_values a /\
  unit e = arg_unit a /\
  warning_message e = arg_warning_message a /\
  subject e = arg_subject a /\
  email_timeout e = arg_email_timeout a /\
  emails e = arg_emails a /\
  group e = arg_group a /\
  step_level e = 0 /\
  last_event_time e = PrimFloat.sub now (arg_email_timeout a).
Proof.
  intros Hi.
  destruct (supported (condition_of a)) eqn:Hs.
  2:{ rewrite (init_unsupported _ _ Hs) in Hi. discriminate. }
  unfold Model.supported in Hs.
  destruct (String.eqb_spec (condition_of a) (OutOfRange Condition)) as [Ho|Ho].
  { rewrite (init_out_of_range _ _ Ho) in Hi.
    destruct (str_split ":" (arg_alarm_values a)) as [|lo_s [|hi_s [|? ?]]];
      try discriminate.
    destruct (float_of_str py lo_s), (float_of_str py hi_s); try discriminate.
    destruct (fge f f0); [discriminate|].
    inversion Hi; subst; simpl. repeat split. }
  destruct (String.eqb_spec (condition_of a) (SuperiorThan Condition)) as [Hsup|Hsup].
  { rewrite (init_superior_than _ _ Hsup) in Hi.
    destruct (float_of_str py (arg_alarm_values a)); [|discriminate].
    inversion Hi; subst; simpl. repeat split. }
  destruct (String.eqb_spec (condition_of a) (InferiorThan Condition)) as [Hinf|Hinf].
  { rewrite (init_inferior_than _ _ Hinf) in Hi.
    destruct (float_of_str py (arg_alarm_values a)); [|discriminate].
    inversion Hi; subst; simpl. repeat split. }
  destruct (String.eqb_spec (condition_of a) (IncreasingStep Condition)) as [Hinc|Hinc].
  { rewrite (init_increasing_step _ _ Hinc) in Hi.
    destruct (parse_all py (str_split ":" (arg_alarm_values a))); [|discriminate].
    destruct (has_descent l); [discriminate|].
    inversion Hi; subst; simpl. repeat split. }
  discriminate.
Qed.

(** A configuration without any of the four defects gives an entry. *)
Lemma init_succeeds (now : float) (a : EntryArgs) :
  unsupported_condition a || malformed_numbers a
  || thresholds_not_increasing a || range_inverted a = false ->
  exists e, Entry__init__ now a = Return e.
Proof.
  intros Hok. names.
  unfold Model.unsupported_condition, Model.malformed_numbers,
    Model.thresholds_not_increasing, Model.range_inverted in Hok.
  destruct (supported (condition_of a)) eqn:Hs; [|discriminate].
  unfold Model.supported in Hs. simpl in Hok.
  destruct (String.eqb_spec (condition_of a) (OutOfRange Condition)) as [Ho|Ho].
  { rewrite (init_out_of_range _ _ Ho).
    destruct (str_split ":" (arg_alarm_values a)) as [|lo_s [|hi_s [|? ?]]];
      try discriminate.
    destruct (float_of_str py lo_s), (float_of_str py hi_s); try discriminate.
    simpl in Hok. apply orb_false_iff in Hok. destruct Hok as [_ Hok].
    rewrite Hok. eauto. }
  destruct (String.eqb_spec (condition_of a) (SuperiorThan Condition)) as [Hsup|Hsup].
  { rewrite (init_superior_than _ _ Hsup).
    destruct (float_of_str py (arg_alarm_values a)); [eauto|discriminate]. }
  destruct (String.eqb_spec (condition_of a) (InferiorThan Condition)) as [Hinf|Hinf].
  { rewrite (init_inferior_than _ _ Hinf).
    destruct (float_of_str py (arg_alarm_values a)); [eauto|discriminate]. }
  destruct (String.eqb_spec (condition_of a) (IncreasingStep Condition)) as [Hinc|Hinc].
  { rewrite (init_increasing_step _ _ Hinc).
    destruct (parse_all py (str_split ":" (arg_alarm_values a))); [|discriminate].
    simpl in Hok. apply orb_false_iff in Hok. destruct Hok as [Hok _].
    rewrite Hok. eauto. }
  discriminate.
Qed.

(** X1. A configuration with a supported condition name, well-formed
    numbers, no threshold greater than or equal to its successor and no
    inverted range always gives an entry; the entry holds the PV with the
    stripped name, the normalised condition name and the other arguments as
    given, starts at level 0 and has [last_event_time] one timeout before the
    time of construction. *)
Theorem sound_configuration_creates_the_entry (now : float) (a : EntryArgs) :
  unsupported_condition a || malformed_numbers a
  || thresholds_not_increasing a || range_inverted a = false ->
  exists e,
    Entry__init__ now a = Return e /\
    _pv e = Some (if arg_dummy a then DummyPV (str_strip py (arg_pvname a))
                  else EpicsPV (str_strip py (arg_pvname a))) /\
    condition e = str_strip py (str_lower py (arg_condition a)) /\
    alarm_values e = arg_alarm_values a /\
    unit e = arg_unit a /\
    warning_message e = arg_warning_message a /\
    subject e = arg_subject a /\
    email_timeout e = arg_email_timeout a /\
    emails e = arg_emails a /\
    group e = arg_group a /\
    step_level e = 0 /\
    last_event_time e = PrimFloat.sub now (arg_email_timeout a).
Proof.
  intros Hok. destruct (init_succeeds now a Hok) as [e He]. exists e.
  destruct (init_configuration _ _ _ He)
    as (H1 & _ & H3 & H4 & H5 & H6 & H7 & H8 & H9 & H10 & H11 & H12).
  split; [exact He|]. split.
  { rewrite H1. unfold Model.pv_of. destruct (arg_dummy a); reflexivity. }
  repeat split; assumption.
Qed.

(** X2. [as_dict] of an entry that [__init__] has returned never raises and
    gives back the configuration: the stripped PV name, the normalised
    condition name, the name of the group and the other arguments as they
    were given; the entry is not changed. *)
Theorem as_dict_gives_the_configuration (now : float) (a : EntryArgs) (e : Entry) :
  Entry__init__ now a = Return e ->
  as_dict e =
  (Return [("pvname", VStr (str_strip py (arg_pvname a)));
           ("condition", VStr (str_strip py (str_lower py (arg_condition a))));
           ("alarm_values", VStr (arg_alarm_values a));
           ("unit", VStr (arg_unit a));
           ("emails", VStr (arg_emails a));
           ("group", VStr (name (arg_group a)));
           ("warning_message", VStr (arg_warning_message a));
           ("subject", VStr (arg_subject a));
           ("email_timeout", VFloat (arg_email_timeout a))], e).
Proof.
  intros He.
  destruct (init_configuration _ _ _ He)
    as (H1 & _ & H3 & H4 & H5 & H6 & H7 & H8 & H9 & H10 & _).
  unfold as_dict. run. rewrite H1, H3, H4, H5, H6, H7, H8, H9, H10. simpl.
  unfold Model.pv_of, Model.condition_of. destruct (arg_dummy a); reflexivity.
Qed.

(** ** Range and lower-bound conditions *)

Lemma violation_message_out_of_range (value lo hi : float) (e : Entry) :
  condition e = OutOfRange Condition ->
  alarm_min e = Some lo ->
  alarm_max e = Some hi ->
  violation_message value e =
  (Return (if flt value lo || fgt value hi
           then Some ("from " ++ str_of_float py lo ++ unit e ++ " to "
                      ++ str_of_float py hi ++ " " ++ unit e)
           else None), e).
Proof.
  intros Hc Hlo Hhi. names. unfold Model.violation_message. run.
  rewrite Hc. eqb_names. rewrites.
  destruct (flt value lo); rewrites; [reflexivity|].
  destruct (fgt value hi); rewrites; [reflexivity|].
  eqb_names. reflexivity.
Qed.

Lemma violation_message_inferior_than (value lo : float) (e : Entry) :
  condition e = InferiorThan Condition ->
  alarm_min e = Some lo ->
  violation_message value e =
  (Return (if flt value lo
           then Some ("higher than " ++ str_of_float py lo ++ unit e)
           else None), e).
Proof.
  intros Hc Hlo. names. unfold Model.violation_message. run.
  rewrite Hc. eqb_names. rewrites.
  destruct (flt value lo); rewrites; [reflexivity|].
  eqb_names. reflexivity.
Qed.

(** The event that the constructor returns for a message, if it accepts it. *)
Lemma handle_condition_optional_message
      (value : float) (e : Entry) (pv : PV) (violated : bool) (message : string) :
  violation_message value e = (Return (if violated then Some message else None), e) ->
  str_truthy message = true ->
  _pv e = Some pv ->
  handle_condition value e =
  (Return (if violated
           then match EmailEvent_error (event_of value message pv e) with
                | None => Some (event_of value message pv e)
                | Some _ => None
                end
           else None), e).
Proof.
  intros Hm Ht Hpv. destruct violated.
  - apply handle_condition_message; assumption.
  - apply handle_condition_of_message. exact Hm.
Qed.

(** X3. An entry built from an OutOfRange configuration has both bounds,
    with [min >= max] false. A sample yields an event exactly when it is
    less than [alarm_min] or greater than [alarm_max] (and the event
    constructor accepts it); the message of the event is
    "from <min><unit> to <max> <unit>". The entry is never changed, and no
    sample makes [handle_condition] raise. *)
Theorem out_of_range_evaluation
        (now value : float) (a : EntryArgs) (e : Entry) :
  condition_of a = OutOfRange Condition ->
  Entry__init__ now a = Return e ->
  exists lo hi,
    alarm_min e = Some lo /\
    alarm_max e = Some hi /\
    fge lo hi = false /\
    let message := "from " ++ str_of_float py lo ++ unit e ++ " to "
                   ++ str_of_float py hi ++ " " ++ unit e in
    let event := event_of value message (pv_of a) e in
    handle_condition value e =
    (Return (if flt value lo || fgt value hi
             then match EmailEvent_error event with
                  | None => Some event
                  | Some _ => None
                  end
             else None), e).
Proof.
  intros Hc Hi.
  destruct (init_configuration _ _ _ Hi) as (Hpv & _ & Hcond & _).
  rewrite (init_out_of_range _ _ Hc) in Hi.
  destruct (str_split ":" (arg_alarm_values a)) as [|lo_s [|hi_s [|? ?]]];
    try discriminate.
  destruct (float_of_str py lo_s) as [lo|]; [|discriminate].
  destruct (float_of_str py hi_s) as [hi|]; [|discriminate].
  destruct (fge lo hi) eqn:Hge; [discriminate|].
  exists lo, hi.
  assert (Hlo : alarm_min e = Some lo) by (inversion Hi; reflexivity).
  assert (Hhi : alarm_max e = Some hi) by (inversion Hi; reflexivity).
  split; [exact Hlo|]. split; [exact Hhi|]. split; [exact Hge|].
  apply handle_condition_optional_message.
  - apply violation_message_out_of_range; congruence.
  - reflexivity.
  - exact Hpv.
Qed.

(** X4. An entry built from an InferiorThan configuration yields an event
    exactly when the sample is less than [alarm_min] (and the event
    constructor accepts it), with the message "higher than <min><unit>"; the
    entry is never changed, and no sample makes [handle_condition] raise. *)
Theorem inferior_than_evaluation
        (now value : float) (a : EntryArgs) (e : Entry) :
  condition_of a = InferiorThan Condition ->
  Entry__init__ now a = Return e ->
  exists lo,
    float_of_str py (arg_alarm_values a) = Some lo /\
    alarm_min e = Some lo /\
    let message := "higher than " ++ str_of_float py lo ++ unit e in
    let event := event_of value message (pv_of a) e in
    handle_condition value e =
    (Return (if flt value lo
             then match EmailEvent_error event with
                  | None => Some event
                  | Some _ => None
                  end
             else None), e).
Proof.
  intros Hc Hi.
  destruct (init_configuration _ _ _ Hi) as (Hpv & _ & Hcond & _).
  rewrite (init_inferior_than _ _ Hc) in Hi.
  destruct (float_of_str py (arg_alarm_values a)) as [lo|]; [|discriminate].
  exists lo.
  assert (Hlo : alarm_min e = Some lo) by (inversion Hi; reflexivity).
  split; [reflexivity|]. split; [exact Hlo|].
  apply handle_condition_optional_message.
  - apply violation_message_inferior_than; congruence.
  - reflexivity.
  - exact Hpv.
Qed.

(** ** Samples that are not numbers *)

Lemma nan_flt (v x : float) : is_nan v = true -> flt v x = false.
Proof. intros H. apply (nan_compares_false v x H). Qed.

Lemma nan_fgt (v x : float) : is_nan v = true -> fgt v x = false.
Proof. intros H. apply (nan_compares_false v x H). Qed.

Lemma nan_fge (v x : float) : is_nan v = true -> fge v x = false.
Proof. intros H. apply (nan_compares_false v x H). Qed.

Lemma violation_message_nan (value : float) (e : Entry) :
  is_nan value = true ->
  exists r, violation_message value e = (r, e) /\
            forall message, r <> Return (Some message).
Proof.
  intros Hn. unfold Model.violation_message, handle_increasing_step. run.
  repeat (first [ rewrite (nan_flt value _ Hn)
                | rewrite (nan_fgt value _ Hn)
                | rewrite (nan_fge value _ Hn)
                | case_match ]; run);
    eexists; (split; [reflexivity | intros m; discriminate]).
Qed.

Lemma handle_condition_nan (value : float) (e : Entry) :
  is_nan value = true ->
  exists r, handle_condition value e = (r, e) /\
            forall ev, r <> Return (Some ev).
Proof.
  intros Hn. destruct (violation_message_nan value e Hn) as (r & Hr & Hne).
  unfold Model.handle_condition, bind. rewrite Hr.
  destruct r as [[m|]|x].
  - exfalso. apply (Hne m). reflexivity.
  - eexists. split; [reflexivity | intros ev; discriminate].
  - eexists. split; [reflexivity | intros ev; discriminate].
Qed.

(** X5. A sample that is NaN never alarms: whatever the entry, the time and
    the connection, [check_alarms] leaves the entry and the queue exactly as
    they were. *)
Theorem nan_sample_changes_nothing
        (timestamp : float) (connected : bool) (value : float) (w : World) :
  is_nan value = true ->
  snd (check_alarms timestamp connected value w) = w.
Proof.
  intros Hn. destruct (handle_condition_nan value (entry w) Hn) as (r & Hr & Hne).
  unfold Model.check_alarms. run.
  destruct (enabled (group (entry w))); simpl; [|destruct w; reflexivity].
  destruct (_pv (entry w)) as [[n|n]|]; simpl; try (destruct w; reflexivity).
  destruct connected; simpl; [|destruct w; reflexivity].
  case_match; simpl; [destruct w; reflexivity|].
  rewrite Hr. destruct r as [[ev|]|x]; simpl.
  - exfalso. apply (Hne ev). reflexivity.
  - destruct w; reflexivity.
  - destruct x; destruct w; reflexivity.
Qed.

(** ** What a call of [check_alarms] can do *)

(** X6. The queue and [last_event_time] move together. A call of
    [check_alarms] either leaves the queue and [last_event_time] as they
    were, or returns normally having appended exactly one event to the
    queue, which had room for it, and set [last_event_time] to the time of
    the call; the second happens only when the group is enabled, the PV is
    connected and the timeout has run out since [last_event_time]. *)
Theorem one_event_per_timeout
        (timestamp : float) (connected : bool) (value : float) (w : World) :
  let r := fst (check_alarms timestamp connected value w) in
  let w' := snd (check_alarms timestamp connected value w) in
  (sms_queue w' = sms_queue w /\
   last_event_time (entry w') = last_event_time (entry w))
  \/ (exists ev,
         r = Return PyNone /\
         items (sms_queue w') = (items (sms_queue w) ++ [ev])%list /\
         maxsize (sms_queue w') = maxsize (sms_queue w) /\
         (List.length (items (sms_queue w)) < maxsize (sms_queue w))%nat /\
         last_event_time (entry w') = timestamp /\
         enabled (group (entry w)) = true /\
         connected = true /\
         flt (PrimFloat.sub timestamp (last_event_time (entry w)))
             (email_timeout (entry w)) = false).
Proof.
  unfold Model.check_alarms. run.
  destruct (enabled (group (entry w))) eqn:Hg; simpl; auto.
  destruct (_pv (entry w)) as [[n|n]|]; simpl; auto.
  destruct connected; simpl; auto.
  destruct (flt (PrimFloat.sub timestamp (last_event_time (entry w)))
                (email_timeout (entry w))) eqn:Ht; simpl; auto.
  destruct (handle_condition value (entry w)) as [[[ev|]|x] e1] eqn:Hh; simpl.
  - pose proof (handle_condition_frame _ _ _ _ Hh) as Hf.
    unfold put_nowait.
    destruct (Nat.ltb_spec (List.length (items (sms_queue w))) (maxsize (sms_queue w)));
      simpl.
    + right. exists ev. repeat split; auto.
    + left. rewrite Hf. auto.
  - left. rewrite (handle_condition_frame _ _ _ _ Hh). auto.
  - left. rewrite (handle_condition_frame _ _ _ _ Hh). destruct x; auto.
Qed.

(** The queue after a call: as it was, or with one more event at its end. *)
Lemma check_alarms_queue
      (timestamp : float) (connected : bool) (value : float) (w : World) :
  let w' := snd (check_alarms timestamp connected value w) in
  sms_queue w' = sms_queue w
  \/ (exists ev,
         items (sms_queue w') = (items (sms_queue w) ++ [ev])%list /\
         maxsize (sms_queue w') = maxsize (sms_queue w) /\
         (List.length (items (sms_queue w)) < maxsize (sms_queue w))%nat).
Proof.
  unfold Model.check_alarms. run.
  destruct (enabled (group (entry w))); simpl; auto.
  destruct (_pv (entry w)) as [[n|n]|]; simpl; auto.
  destruct connected; simpl; auto.
  case_match; simpl; auto.
  destruct (handle_condition value (entry w)) as [[[ev|]|x] e1]; simpl; auto.
  - unfold put_nowait.
    destruct (Nat.ltb_spec (List.length (items (sms_queue w))) (maxsize (sms_queue w)));
      simpl; auto.
    right. exists ev. auto.
  - destruct x; auto.
Qed.

Lemma perform_queue_bound (act : action) (w : World) :
  (List.length (items (sms_queue w)) <= maxsize (sms_queue w))%nat ->
  (List.length (items (sms_queue (perform act w)))
   <= maxsize (sms_queue (perform act w)))%nat /\
  maxsize (sms_queue (perform act w)) = maxsize (sms_queue w).
Proof.
  intros Hb. destruct act as [timestamp connected value|b|]; simpl.
  - destruct (check_alarms_queue timestamp connected value w)
      as [H|(ev & Hi & Hm & Hroom)].
    + rewrite H. auto.
    + rewrite Hi, Hm, length_app. simpl. split; [lia|reflexivity].
  - auto.
  - split; [|reflexivity]. destruct (items (sms_queue w)); simpl in *; lia.
Qed.

(** X7. The queue stays within its capacity and callbacks only append.
    Whatever happens to an entry (callbacks, switches of the group, the
    dispatcher taking events), a queue within its capacity stays within it
    and its capacity does not change; and a series of callbacks leaves the
    events already queued in place and adds at most one event per
    callback, at the end. *)
Theorem queue_is_bounded_and_append_only (w : World) :
  (forall acts,
      (List.length (items (sms_queue w)) <= maxsize (sms_queue w))%nat ->
      (List.length (items (sms_queue (perform_all acts w)))
       <= maxsize (sms_queue w))%nat /\
      maxsize (sms_queue (perform_all acts w)) = maxsize (sms_queue w)) /\
  (forall calls,
      exists added,
        items (sms_queue (perform_all (callbacks calls) w))
        = (items (sms_queue w) ++ added)%list /\
        (List.length added <= List.length calls)%nat).
Proof.
  split.
  - intros acts. revert w. induction acts as [|act acts IH]; intros w Hb; simpl.
    + auto.
    + destruct (perform_queue_bound act w Hb) as [H1 H2].
      destruct (IH _ H1) as [H3 H4]. rewrite <- H2. split; [|congruence]. lia.
  - intros calls. revert w. induction calls as [|[[ts c] v] calls IH]; intros w.
    + exists []. simpl. rewrite app_nil_r. auto.
    + cbn [callbacks map perform_all fold_left].
      change (fold_left (fun w0 act => perform act w0) (map _ calls) ?x)
        with (perform_all (callbacks calls) x).
      destruct (IH (perform (Callback ts c v) w)) as (added & Ha & Hl).
      rewrite Ha. simpl.
      destruct (check_alarms_queue ts c v w) as [H|(ev & Hi & _)].
      * rewrite H. exists added. split; [reflexivity|]. simpl. lia.
      * rewrite Hi. exists (ev :: added). rewrite <- app_assoc. simpl.
        split; [reflexivity|lia].
Qed.

Lemma violation_message_other_conditions (value : float) (e : Entry) :
  condition e <> IncreasingStep Condition ->
  snd (violation_message value e) = e.
Proof.
  intros Hc. apply String.eqb_neq in Hc.
  unfold Model.violation_message. run. rewrite Hc.
  repeat (case_match; run); reflexivity.
Qed.

Lemma handle_condition_other_conditions (value : float) (e : Entry) :
  condition e <> IncreasingStep Condition ->
  snd (handle_condition value e) = e.
Proof.
  intros Hc. pose proof (violation_message_other_conditions value e Hc) as Hv.
  unfold Model.handle_condition, bind.
  destruct (violation_message value e) as [[m|x] e1]; simpl in Hv; subst e1.
  - destruct (make_event_frame value m e) as [r Hr]. rewrite Hr. reflexivity.
  - reflexivity.
Qed.

(** X8. [check_alarms] never touches the configuration. Of the attributes
    of the entry it can change [step_level] and [last_event_time] only: the
    PV, the condition, the bounds, the thresholds, the timeout, the group
    and the texts are as before, whether the call returns or raises. When
    the condition is not IncreasingStep, [step_level] is as before too. *)
Theorem check_alarms_keeps_the_configuration
        (timestamp : float) (connected : bool) (value : float) (w : World) :
  let e' := entry (snd (check_alarms timestamp connected value w)) in
  e' = set_last_event_time (last_event_time e')
         (set_step_level (step_level e') (entry w)) /\
  (condition (entry w) <> IncreasingStep Condition ->
   step_level e' = step_level (entry w)).
Proof.
  simpl.
  assert (Hsame : forall e : Entry,
             e = set_last_event_time (last_event_time e)
                   (set_step_level (step_level e) e))
    by (intros e; destruct e; reflexivity).
  assert (Hshape : forall e0 e1 : Entry,
             e1 = set_step_level (step_level e1) e0 ->
             e1 = set_last_event_time (last_event_time e1)
                    (set_step_level (step_level e1) e0))
    by (intros e0 e1 H; rewrite H; destruct e0; reflexivity).
  assert (Hf : snd (handle_condition value (entry w))
               = set_step_level (step_level (snd (handle_condition value (entry w))))
                   (entry w)).
  { destruct (handle_condition value (entry w)) as [r e1] eqn:Hh. simpl.
    apply (handle_condition_frame _ _ _ _ Hh). }
  split.
  - destruct (check_alarms_entry timestamp connected value w) as [H|[H|H]];
      rewrite H.
    + apply Hsame.
    + apply Hshape. exact Hf.
    + simpl. rewrite Hf at 1. reflexivity.
  - intros Hc.
    pose proof (handle_condition_other_conditions value (entry w) Hc) as Ho.
    destruct (check_alarms_entry timestamp connected value w) as [H|[H|H]];
      rewrite H; rewrite ?Ho; reflexivity.
Qed.

(** X9. Disconnected PV: when the PV of the entry reports that it is not
    connected, [check_alarms] returns nothing, whatever the group, the
    sample and the time, and the entry and the queue are exactly as they
    were. *)
Theorem disconnected_pv_changes_nothing
        (timestamp value : float) (w : World) (n : string) :
  _pv (entry w) = Some (EpicsPV n) ->
  check_alarms timestamp false value w = (Return PyNone, w) /\
  forall acts_before,
    perform (Callback timestamp false value) (perform_all acts_before w)
    = perform_all acts_before w.
Proof.
  intros Hpv. split.
  - apply (check_alarms_disconnected _ _ _ _ Hpv).
  - intros acts. simpl.
    assert (Hpv' : _pv (entry (perform_all acts w)) = Some (EpicsPV n)).
    { clear - Hpv. revert w Hpv.
      induction acts as [|act acts IH]; intros w Hpv; simpl; [exact Hpv|].
      apply IH. destruct act as [ts c v|b|]; simpl; auto.
      destruct (check_alarms_entry ts c v w) as [H|[H|H]]; rewrite H; auto.
      - destruct (handle_condition v (entry w)) as [r e1] eqn:Hh. simpl.
        rewrite (handle_condition_frame _ _ _ _ Hh). exact Hpv.
      - destruct (handle_condition v (entry w)) as [r e1] eqn:Hh. simpl.
        rewrite (handle_condition_frame _ _ _ _ Hh). exact Hpv. }
    rewrite (check_alarms_disconnected _ _ _ _ Hpv'). reflexivity.
Qed.

(** X10. The manual trigger. On an entry built on a live PV, [trigger]
    does what the callback does with the value that the PV holds. On an
    entry built as a dummy it raises [AttributeError], because [DummyPV]
    has no [value]; and [check_alarms] itself, on a dummy whose group is
    enabled, raises [AttributeError] at [connected]. Nothing is changed in
    either case. *)
Theorem trigger_needs_a_live_pv
        (now : float) (a : EntryArgs) (e : Entry)
        (timestamp : float) (connected : bool) (value : float) (q : Queue) :
  Entry__init__ now a = Return e ->
  let w := {| entry := e; sms_queue := q |} in
  (arg_dummy a = false ->
   trigger timestamp connected value w = check_alarms timestamp connected value w) /\
  (arg_dummy a = true ->
   trigger timestamp connected value w = (Raise (AttributeError "value"), w) /\
   (enabled (group e) = true ->
    check_alarms timestamp connected value w
    = (Raise (AttributeError "connected"), w))).
Proof.
  intros He. destruct (init_configuration _ _ _ He) as (Hpv & _).
  unfold Model.pv_of in Hpv. simpl. split.
  - intros Hd. rewrite Hd in Hpv. simpl in Hpv.
    unfold Model.trigger. run. rewrite Hpv. simpl. reflexivity.
  - intros Hd. rewrite Hd in Hpv. simpl in Hpv. split.
    + unfold Model.trigger. run. rewrite Hpv. reflexivity.
    + intros Hg. unfold Model.check_alarms. run. rewrite Hg. simpl.
      rewrite Hpv. reflexivity.
Qed.

(** ** The stair *)

Lemma increasing_tail (s : float) (rest : list float) :
  increasing (s :: rest) = true -> increasing rest = true.
Proof.
  destruct rest as [|v rest]; [reflexivity|].
  cbn [increasing]. intros H. apply andb_true_iff in H. apply H.
Qed.

Lemma increasing_head (s : float) (rest : list float) (j : nat) (y : float) :
  increasing (s :: rest) = true -> nth_error rest j = Some y -> flt s y = true.
Proof.
  revert s j. induction rest as [|v rest IH]; intros s j H Hy.
  - destruct j; discriminate.
  - cbn [increasing] in H. apply andb_true_iff in H. destruct H as [Hsv Hr].
    destruct j as [|j]; simpl in Hy.
    + inversion Hy; subst. exact Hsv.
    + apply (flt_trans s v y Hsv). apply (IH v j Hr Hy).
Qed.

(** In an increasing list an earlier threshold is less than a later one. *)
Lemma increasing_nth (l : list float) (i j : nat) (x y : float) :
  increasing l = true -> (i < j)%nat ->
  nth_error l i = Some x -> nth_error l j = Some y -> flt x y = true.
Proof.
  revert i j. induction l as [|s rest IH]; intros i j H Hij Hx Hy.
  - destruct i; discriminate.
  - destruct j as [|j]; [lia|]. destruct i as [|i]; simpl in Hx, Hy.
    + inversion Hx; subst. apply (increasing_head x rest j y H Hy).
    + apply (IH i j (increasing_tail _ _ H)); [lia | exact Hx | exact Hy].
Qed.

(** Staying on the level. *)
Lemma handle_increasing_step_stay (value next : float) (e : Entry) :
  min_level e = Some 0 ->
  list_index (step_values e) (step_level e) = Some next ->
  fge value next = false ->
  (flt value next = false \/ step_level e = 0 \/
   exists below, list_index (step_values e) (step_level e - 1) = Some below /\
                 flt value below = false) ->
  handle_increasing_step py value e = (Return None, e).
Proof.
  intros Hmin Hnext Hge Hstay.
  unfold handle_increasing_step. run. rewrite Hnext. simpl. rewrite Hge. simpl.
  destruct (flt value next) eqn:Hlt; simpl; [|reflexivity].
  destruct Hstay as [H|[H|(below & Hb & Hlb)]].
  - discriminate.
  - assert (Hz : (step_level e =? 0) = true) by (apply Z.eqb_eq; exact H).
    repeat (progress (rewrite ?Hmin, ?Hz; simpl)). reflexivity.
  - repeat (progress (rewrite ?Hmin; simpl)).
    destruct (step_level e =? 0); simpl; [reflexivity|].
    repeat (progress (rewrite ?Hb, ?Hlb; simpl)). reflexivity.
Qed.

(** The three things that [handle_increasing_step] does below the ceiling:
    it goes up with a message, or goes down without, or stays. *)
Lemma handle_increasing_step_cases (value : float) (e : Entry) :
  max_level e = Some (Z.of_nat (List.length (step_values e))) ->
  min_level e = Some 0 ->
  0 <= step_level e < Z.of_nat (List.length (step_values e)) ->
  exists next floor,
    list_index (step_values e) (step_level e) = Some next /\
    list_index (step_values e) 0 = Some floor /\
    ((fge value next = true /\
      handle_increasing_step py value e
      = (Return (Some ("lower than " ++ str_of_float py floor ++ unit e)),
         set_step_level (_find_next_level e value) e))
     \/ (fge value next = false /\
         (exists below,
             list_index (step_values e) (step_level e - 1) = Some below /\
             flt value below = true) /\
         step_level e <> 0 /\
         handle_increasing_step py value e
         = (Return None, set_step_level (_find_next_level e value) e))
     \/ (fge value next = false /\
         handle_increasing_step py value e = (Return None, e))).
Proof.
  intros Hmax Hmin Hl.
  destruct (list_index (step_values e) (step_level e)) as [next|] eqn:Hnext.
  2:{ rewrite list_index_nat in Hnext by lia.
      apply nth_error_None in Hnext. lia. }
  destruct (list_index (step_values e) 0) as [floor|] eqn:Hfloor.
  2:{ rewrite list_index_nat in Hfloor by lia.
      apply nth_error_None in Hfloor. simpl in Hfloor. lia. }
  exists next, floor. split; [reflexivity|]. split; [reflexivity|].
  destruct (fge value next) eqn:Hge.
  - left. split; [reflexivity|].
    apply (handle_increasing_step_up value next floor e); auto. lia.
  - right.
    destruct (flt value next) eqn:Hlt.
    2:{ right. split; [reflexivity|].
        apply (handle_increasing_step_stay value next e); auto. }
    destruct (Z.eq_dec (step_level e) 0) as [Hz|Hz].
    { right. split; [reflexivity|].
      apply (handle_increasing_step_stay value next e); auto. }
    destruct (list_index (step_values e) (step_level e - 1)) as [below|] eqn:Hb.
    2:{ rewrite list_index_nat in Hb by lia.
        apply nth_error_None in Hb. lia. }
    destruct (flt value below) eqn:Hlb.
    + left. split; [reflexivity|]. split; [eauto|]. split; [exact Hz|].
      apply (handle_increasing_step_down value next below e); auto.
    + right. split; [reflexivity|].
      apply (handle_increasing_step_stay value next e); eauto.
Qed.

(** The level found for a sample at or above the threshold of the level,
    when the thresholds increase, is higher. *)
Lemma _find_next_level_above (value next : float) (e : Entry) :
  increasing (step_values e) = true ->
  0 <= step_level e ->
  list_index (step_values e) (step_level e) = Some next ->
  fge value next = true ->
  step_level e < _find_next_level e value.
Proof.
  intros Hinc Hpos Hnext Hge.
  pose proof (list_index_Some_range _ _ _ Hnext) as Hr.
  destruct (_find_next_level_least value e) as (Hrange & Hleast & Hfound).
  destruct (Z_lt_le_dec (step_level e) (_find_next_level e value)) as [H|H];
    [exact H|exfalso].
  destruct Hfound as (x & Hx & Hvx); [lia|].
  pose proof (fge_not_flt _ _ Hge) as Hnot.
  destruct (Z.eq_dec (_find_next_level e value) (step_level e)) as [Heq|Hne].
  - rewrite Heq in Hx. congruence.
  - rewrite list_index_nat in Hx, Hnext by lia.
    assert (Hxn : flt x next = true).
    { apply (increasing_nth (step_values e)
               (Z.to_nat (_find_next_level e value)) (Z.to_nat (step_level e)));
        auto. lia. }
    rewrite (flt_trans _ _ _ Hvx Hxn) in Hnot. discriminate.
Qed.

(** The level found for a sample below the threshold under the level is
    lower. *)
Lemma _find_next_level_below (value below : float) (e : Entry) :
  0 < step_level e ->
  list_index (step_values e) (step_level e - 1) = Some below ->
  flt value below = true ->
  _find_next_level e value < step_level e.
Proof.
  intros Hpos Hb Hlt.
  destruct (_find_next_level_least value e) as (Hrange & Hleast & _).
  destruct (Z_lt_le_dec (_find_next_level e value) (step_level e)) as [H|H];
    [exact H|exfalso].
  rewrite (Hleast (step_level e - 1) below) in Hlt; [discriminate|lia|exact Hb].
Qed.

(** X11. Events are sent only when the level goes up (the docstring of
    [_init_increasing_step]). For an IncreasingStep entry below its ceiling
    whose thresholds increase, [handle_condition] does one of three things:
    it moves to a higher level and returns the event (when the constructor
    accepts it); it moves to a lower level and returns no event; or it
    returns no event and changes nothing. *)
Theorem events_only_when_the_level_rises
        (value : float) (e : Entry) (pv : PV) :
  condition e = IncreasingStep Condition ->
  increasing (step_values e) = true ->
  max_level e = Some (Z.of_nat (List.length (step_values e))) ->
  min_level e = Some 0 ->
  _pv e = Some pv ->
  0 <= step_level e < Z.of_nat (List.length (step_values e)) ->
  let r := fst (handle_condition value e) in
  let e' := snd (handle_condition value e) in
  (step_level e < step_level e' /\
   exists ev, r = Return (match EmailEvent_error ev with
                          | None => Some ev
                          | Some _ => None
                          end))
  \/ (step_level e' < step_level e /\ r = Return None)
  \/ (e' = e /\ r = Return None).
Proof.
  intros Hc Hinc Hmax Hmin Hpv Hl.
  destruct (handle_increasing_step_cases value e Hmax Hmin Hl)
    as (next & floor & Hnext & Hfloor &
        [(Hge & Hup)|[(Hge & (below & Hb & Hlb) & Hz & Hdown)|(Hge & Hstay)]]).
  - left.
    assert (Hm : violation_message value e
                 = (Return (Some ("lower than " ++ str_of_float py floor ++ unit e)),
                    set_step_level (_find_next_level e value) e))
      by (rewrite violation_message_increasing_step by exact Hc; exact Hup).
    rewrite (handle_condition_message _ _ _ _ _ Hm eq_refl Hpv). simpl.
    split; [|eauto].
    apply (_find_next_level_above value next e); auto. lia.
  - right. left.
    rewrite (handle_condition_of_message value e
               (set_step_level (_find_next_level e value) e)).
    + simpl. split; [|reflexivity].
      apply (_find_next_level_below value below e); auto. lia.
    + rewrite violation_message_increasing_step by exact Hc. exact Hdown.
  - right. right.
    rewrite (handle_condition_of_message value e e).
    + auto.
    + rewrite violation_message_increasing_step by exact Hc. exact Hstay.
Qed.

(** After [_find_next_level] has placed a sample below the ceiling, the
    sample stays there. *)
Lemma handle_increasing_step_settled (value : float) (e : Entry) :
  min_level e = Some 0 ->
  step_level e = _find_next_level e value ->
  step_level e < Z.of_nat (List.length (step_values e)) ->
  handle_increasing_step py value e = (Return None, e).
Proof.
  intros Hmin Hlvl Hl.
  destruct (_find_next_level_least value e) as (Hrange & Hleast & Hfound).
  rewrite <- Hlvl in *.
  destruct (Hfound Hl) as (next & Hnext & Hlt).
  apply (handle_increasing_step_stay value next e Hmin Hnext (flt_not_fge _ _ Hlt)).
  destruct (Z.eq_dec (step_level e) 0) as [Hz|Hz]; [auto|].
  right. right.
  destruct (list_index (step_values e) (step_level e - 1)) as [below|] eqn:Hb.
  2:{ rewrite list_index_nat in Hb by lia. apply nth_error_None in Hb. lia. }
  exists below. split; [reflexivity|]. apply (Hleast (step_level e - 1)); [lia|exact Hb].
Qed.

(** X12. A sample is absorbed by the first evaluation. For an
    IncreasingStep entry, once a sample has been evaluated and the level
    reached is below the ceiling, evaluating the same sample again returns
    no event and changes nothing; so a steady value raises at most one
    event. *)
Theorem same_sample_again_is_silent (value : float) (e : Entry) :
  condition e = IncreasingStep Condition ->
  max_level e = Some (Z.of_nat (List.length (step_values e))) ->
  min_level e = Some 0 ->
  0 <= step_level e <= Z.of_nat (List.length (step_values e)) ->
  let e' := snd (handle_condition value e) in
  step_level e' < Z.of_nat (List.length (step_values e')) ->
  handle_condition value e' = (Return None, e').
Proof.
  intros Hc Hmax Hmin Hl. simpl.
  destruct (handle_condition value e) as [r e'] eqn:Hh. simpl.
  pose proof (handle_condition_frame _ _ _ _ Hh) as Hf.
  pose proof (handle_condition_level _ _ _ _ Hh) as Hlvl.
  intros Hbelow.
  assert (Hc' : condition e' = IncreasingStep Condition) by (rewrite Hf; exact Hc).
  assert (Hmin' : min_level e' = Some 0) by (rewrite Hf; exact Hmin).
  assert (Hv : step_values e' = step_values e) by (rewrite Hf; reflexivity).
  apply handle_condition_of_message.
  rewrite violation_message_increasing_step by exact Hc'.
  destruct Hlvl as [Hsame|Hmoved].
  - (* the level did not move: the entry is as it was *)
    assert (He : e' = e).
    { rewrite Hf, Hsame. apply set_step_level_same. }
    subst e'.
    assert (Hl' : 0 <= step_level e < Z.of_nat (List.length (step_values e))) by lia.
    destruct (handle_increasing_step_cases value e Hmax Hmin Hl')
      as (next & floor & Hnext & Hfloor &
          [(Hge & Hup)|[(Hge & _ & _ & Hdown)|(Hge & Hstay)]]).
    + apply handle_increasing_step_settled; auto.
      assert (Hm : violation_message value e
                   = (Return (Some ("lower than " ++ str_of_float py floor ++ unit e)),
                      set_step_level (_find_next_level e value) e))
        by (rewrite violation_message_increasing_step by exact Hc; exact Hup).
      pose proof (violation_message_frame _ _ _ _ Hm) as Hvf.
      unfold Model.handle_condition, bind in Hh. rewrite Hm in Hh.
      destruct (make_event_frame value
                  (Some ("lower than " ++ str_of_float py floor ++ unit e))
                  (set_step_level (_find_next_level e value) e)) as [r1 Hr1].
      rewrite Hr1 in Hh. inversion Hh as [[Hr He]].
      rewrite <- He at 1. reflexivity.
    + apply handle_increasing_step_settled; auto.
      assert (Hm : violation_message value e
                   = (Return None, set_step_level (_find_next_level e value) e))
        by (rewrite violation_message_increasing_step by exact Hc; exact Hdown).
      rewrite (handle_condition_of_message _ _ _ Hm) in Hh.
      inversion Hh as [[Hr He]]. rewrite <- He at 1. reflexivity.
    + exact Hstay.
  - apply handle_increasing_step_settled; auto.
    rewrite Hmoved. unfold _find_next_level. rewrite Hv. reflexivity.
Qed.

(** ** The thresholds of a built entry *)

Lemma Prim2SF_not_nan (v : float) :
  is_nan v = false -> Prim2SF v <> S754_nan.
Proof.
  intros H. unfold Prim2SF. rewrite H.
  destruct (is_zero v); [discriminate|].
  destruct (is_infinity v); [discriminate|].
  destruct (Z.frexp v) as [r ex].
  destruct (shr_fexp prec emax (Uint63Axioms.to_Z (normfr_mantissa r)) (ex - prec)
              loc_Exact) as [sh e'].
  destruct (shr_m sh); discriminate.
Qed.

(** Two numbers of which the first is not at least the second: the first is
    less than the second. *)
Lemma not_fge_flt (a b : float) :
  is_nan a = false -> is_nan b = false -> fge a b = false -> flt a b = true.
Proof.
  intros Ha Hb. unfold fge, flt. rewrite leb_spec, ltb_spec.
  pose proof (Prim2SF_not_nan a Ha) as Hna.
  pose proof (Prim2SF_not_nan b Hb) as Hnb.
  unfold SFleb, SFltb. rewrite (SFcompare_antisym (Prim2SF b) (Prim2SF a)).
  destruct (Prim2SF a) as [sa|sa| |sa ma ea]; try congruence;
    destruct (Prim2SF b) as [sb|sb| |sb mb eb]; try congruence;
    simpl;
    try (destruct sa, sb; simpl; congruence);
    try (destruct sa; simpl; congruence);
    try (destruct sb; simpl; congruence).
  destruct sa, sb; simpl; try congruence;
    destruct (eb ?= ea)%Z; simpl; try congruence;
    destruct (Pos.compare_cont Eq mb ma); simpl; congruence.
Qed.

Lemma no_descent_increasing (steps : list float) :
  forallb (fun x => negb (is_nan x)) steps = true ->
  has_descent steps = false ->
  increasing steps = true.
Proof.
  induction steps as [|s [|v rest] IH]; intros Hn Hd; try reflexivity.
  cbn [has_descent] in Hd. apply orb_false_iff in Hd. destruct Hd as [Hsv Hd].
  cbn [forallb] in Hn. apply andb_true_iff in Hn. destruct Hn as [Hs Hn].
  cbn [increasing]. apply andb_true_iff. split.
  - cbn [forallb] in Hn. apply andb_true_iff in Hn. destruct Hn as [Hv _].
    apply not_fge_flt; auto; apply negb_true_iff; assumption.
  - apply IH; assumption.
Qed.

(** X13. The thresholds of an entry built from an IncreasingStep
    configuration are the numbers of [alarm_values], in order: there is at
    least one, none is greater than or equal to its successor, [min_level]
    is 0 and [max_level] is their number; and when none of them is NaN,
    each is less than its successor. *)
Theorem thresholds_of_a_built_entry (now : float) (a : EntryArgs) (e : Entry) :
  condition_of a = IncreasingStep Condition ->
  Entry__init__ now a = Return e ->
  parse_all py (str_split ":" (arg_alarm_values a)) = Some (step_values e) /\
  step_values e <> [] /\
  has_descent (step_values e) = false /\
  min_level e = Some 0 /\
  max_level e = Some (Z.of_nat (List.length (step_values e))) /\
  (forallb (fun x => negb (is_nan x)) (step_values e) = true ->
   increasing (step_values e) = true).
Proof.
  intros Hc Hi. rewrite (init_increasing_step _ _ Hc) in Hi.
  destruct (parse_all py (str_split ":" (arg_alarm_values a))) as [vals|] eqn:Hp;
    [|discriminate].
  destruct (has_descent vals) eqn:Hd; [discriminate|].
  inversion Hi; subst e; clear Hi. simpl.
  split; [reflexivity|]. split.
  { intros Hnil. subst vals.
    pose proof (parse_all_length _ _ Hp) as Hlen.
    pose proof (str_split_not_nil ":" (arg_alarm_values a)) as Hne.
    destruct (str_split ":" (arg_alarm_values a)); [congruence|discriminate]. }
  split; [exact Hd|]. split; [reflexivity|]. split; [reflexivity|].
  intros Hn. apply no_descent_increasing; assumption.
Qed.

(** ** Concurrent callbacks finish *)

Lemma thread_step_decreases (i : nat) (t t' : Thread) (w w' : World) (l l' : option nat) :
  thread_step i t w l = Some (t', w', l') ->
  (steps_left (t_pc t') < steps_left (t_pc t))%nat.
Proof.
  unfold Model.thread_step. destruct (t_pc t) eqn:Hpc; run;
    repeat case_match; intros H; inversion H; subst; simpl; lia.
Qed.

Lemma list_sum_replace_nth (f : Thread -> nat) (l : list Thread) (i : nat)
      (t t' : Thread) :
  nth_error l i = Some t -> (f t' < f t)%nat ->
  (list_sum (map f (replace_nth i t' l)) < list_sum (map f l))%nat.
Proof.
  revert i. induction l as [|x l IH]; intros [|i] Hn Hf; simpl in *;
    try discriminate.
  - inversion Hn; subst. lia.
  - specialize (IH i Hn Hf). lia.
Qed.

Lemma step_work_left (i : nat) (s s' : System) :
  step i s = Some s' -> (work_left s' < work_left s)%nat.
Proof.
  unfold Model.step.
  destruct (nth_error (threads s) i) as [t|] eqn:Ht; [|discriminate].
  destruct (thread_step i t (shared s) (lock s)) as [[[t' w'] l']|] eqn:Hs;
    [|discriminate].
  intros H; inversion H; subst; clear H. unfold work_left. simpl.
  apply (list_sum_replace_nth _ _ _ t t' Ht).
  apply (thread_step_decreases _ _ _ _ _ _ _ Hs).
Qed.

Lemma run_work_left (schedule : list nat) (s s' : System) :
  run schedule s = Some s' ->
  (List.length schedule + work_left s' <= work_left s)%nat.
Proof.
  revert s. induction schedule as [|i rest IH]; intros s; simpl.
  - intros H; inversion H; subst. lia.
  - destruct (step i s) as [s1|] eqn:Hs; [|discriminate].
    intros Hr. specialize (IH s1 Hr).
    pose proof (step_work_left _ _ _ Hs). lia.
Qed.

Lemma start_work_left (w : World) (calls : list (float * bool * float)) :
  work_left (start w calls) = (8 * List.length calls)%nat.
Proof.
  unfold work_left, start. simpl.
  induction calls as [|[[ts c] v] calls IH]; simpl in *; [reflexivity|lia].
Qed.

Lemma replace_nth_length {A : Type} (i : nat) (x : A) (l : list A) :
  List.length (replace_nth i x l) = List.length l.
Proof.
  revert i. induction l as [|y l IH]; intros [|i]; simpl; auto.
Qed.

(** The thread that holds the lock is one of the threads. *)
Lemma step_lock_owner (i : nat) (s s' : System) :
  step i s = Some s' ->
  (forall j, lock s = Some j -> (j < List.length (threads s))%nat) ->
  (forall j, lock s' = Some j -> (j < List.length (threads s'))%nat).
Proof.
  unfold Model.step.
  destruct (nth_error (threads s) i) as [t|] eqn:Ht; [|discriminate].
  destruct (thread_step i t (shared s) (lock s)) as [[[t' w'] l']|] eqn:Hs;
    [|discriminate].
  intros H Hinv j Hj; inversion H; subst; clear H. simpl in *.
  rewrite replace_nth_length.
  destruct (thread_step_lock _ _ _ _ _ _ _ Hs)
    as [(Hl & Hl' & _)|[(Hl' & _)|(Hl' & _)]].
  - rewrite Hl' in Hj. inversion Hj; subst.
    apply nth_error_Some. congruence.
  - congruence.
  - apply Hinv. congruence.
Qed.

Lemma run_lock_owner (schedule : list nat) (s s' : System) :
  run schedule s = Some s' ->
  (forall j, lock s = Some j -> (j < List.length (threads s))%nat) ->
  (forall j, lock s' = Some j -> (j < List.length (threads s'))%nat).
Proof.
  revert s. induction schedule as [|i rest IH]; intros s; simpl.
  - intros H; inversion H; subst. auto.
  - destruct (step i s) as [s1|] eqn:Hs; [|discriminate].
    intros Hr Hinv. apply (IH s1 Hr). eapply step_lock_owner; eauto.
Qed.

(** Inside the block a thread can always move. *)
Lemma thread_step_inside (i : nat) (t : Thread) (w : World) (l : option nat) :
  holds_lock (t_pc t) = true -> thread_step i t w l <> None.
Proof.
  unfold Model.thread_step. destruct (t_pc t) eqn:Hpc; simpl;
    try discriminate; intros _; run; repeat case_match; discriminate.
Qed.

(** With the lock free, only a thread that has finished cannot move. *)
Lemma thread_step_free (i : nat) (t : Thread) (w : World) :
  thread_step i t w None = None -> exists r, t_pc t = Done r.
Proof.
  unfold Model.thread_step. destruct (t_pc t) eqn:Hpc; run;
    repeat case_match; try discriminate; eauto.
Qed.

(** X14. Concurrent callbacks always finish and give the lock back.
    Whatever the interleaving, the threads take at most eight steps each;
    and when no thread can move, every call has returned or raised and the
    lock is free: an exception inside the [with self.lock:] block never
    leaves the lock taken, and no thread waits for ever. *)
Theorem callbacks_finish_and_free_the_lock
        (w : World) (calls : list (float * bool * float))
        (schedule : list nat) (s : System) :
  run schedule (start w calls) = Some s ->
  (List.length schedule <= 8 * List.length calls)%nat /\
  (stuck s -> all_done s /\ lock s = None).
Proof.
  intros Hrun. split.
  - pose proof (run_work_left _ _ _ Hrun) as H.
    rewrite start_work_left in H. lia.
  - intros Hstuck.
    pose proof (run_lock_discipline _ _ _ Hrun (start_lock_discipline w calls))
      as Hinv.
    assert (Hown : forall j, lock s = Some j -> (j < List.length (threads s))%nat).
    { apply (run_lock_owner _ _ _ Hrun). simpl. discriminate. }
    assert (Hfree : lock s = None).
    { destruct (lock s) as [j|] eqn:Hl; [exfalso|reflexivity].
      specialize (Hown j eq_refl). apply nth_error_Some in Hown.
      destruct (nth_error (threads s) j) as [t|] eqn:Ht; [|congruence].
      pose proof (proj2 (Hinv j t Ht) Hl) as Hh.
      specialize (Hstuck j). unfold Model.step in Hstuck. rewrite Ht in Hstuck.
      destruct (thread_step j t (shared s) (lock s)) as [[[t' w'] l']|] eqn:Hs;
        [discriminate|].
      apply (thread_step_inside j t (shared s) (lock s) Hh). exact Hs. }
    split; [|exact Hfree].
    intros i t Ht. specialize (Hstuck i). unfold Model.step in Hstuck.
    rewrite Ht, Hfree in Hstuck.
    destruct (thread_step i t (shared s) None) as [[[t' w'] l']|] eqn:Hs;
      [discriminate|].
    apply (thread_step_free i t (shared s) Hs).
Qed.

(** ** The exception of a refused configuration *)

(** X15. The exception that the three [raise] statements of construction
    give. For an unsupported condition name, for a threshold greater than
    or equal to its successor, and for range bounds with [min >= max], the
    message of the exception is formatted first and reads [self._pv], which
    [__init__] assigns last: [Entry(...)] raises [AttributeError] for
    [_pv]. *)
Theorem refused_configuration_raises_AttributeError (now : float) (a : EntryArgs) :
  unsupported_condition a || thresholds_not_increasing a || range_inverted a = true ->
  Entry__init__ now a = Raise (AttributeError "_pv").
Proof.
  intros Hbad. names.
  unfold Model.unsupported_condition, Model.thresholds_not_increasing,
    Model.range_inverted in Hbad.
  destruct (supported (condition_of a)) eqn:Hs.
  2:{ apply init_unsupported. exact Hs. }
  simpl in Hbad.
  destruct (String.eqb_spec (condition_of a) (IncreasingStep Condition)) as [Hinc|Hinc].
  - rewrite (init_increasing_step _ _ Hinc).
    rewrite Hinc in Hbad. revert Hbad. eqb_names. simpl. rewrite orb_false_r.
    destruct (parse_all py (str_split ":" (arg_alarm_values a))); [|discriminate].
    intros ->. reflexivity.
  - simpl in Hbad.
    destruct (String.eqb_spec (condition_of a) (OutOfRange Condition)) as [Ho|Ho];
      [|discriminate].
    rewrite (init_out_of_range _ _ Ho). simpl in Hbad.
    destruct (str_split ":" (arg_alarm_values a)) as [|lo_s [|hi_s [|? ?]]];
      try discriminate.
    destruct (float_of_str py lo_s), (float_of_str py hi_s); try discriminate.
    rewrite Hbad. reflexivity.
Qed.

(** ** Switching the group *)

Lemma perform_callbacks_disabled (calls : list (float * bool * float)) (w : World) :
  enabled (group (entry w)) = false ->
  perform_all (callbacks calls) w = w.
Proof.
  intros Hg. induction calls as [|[[ts c] v] calls IH].
  - reflexivity.
  - cbn [callbacks map Model.perform_all fold_left]. cbn [Model.perform].
    rewrite (check_alarms_disabled ts c v w Hg). simpl. exact IH.
Qed.

(** X16. The group switch is read at every evaluation. After the group has
    been disabled, any series of callbacks leaves the entry and the queue
    as they were; when the flag is then set back to what it was, the
    entry and the queue are exactly as before the switch: no sample seen
    in between has left a trace. *)
Theorem disabled_group_silences_callbacks
        (calls : list (float * bool * float)) (w : World) :
  perform_all (SetEnabled false :: callbacks calls) w
  = perform (SetEnabled false) w /\
  perform (SetEnabled (enabled (group (entry w))))
          (perform_all (SetEnabled false :: callbacks calls) w)
  = w.
Proof.
  assert (H : perform_all (SetEnabled false :: callbacks calls) w
              = perform (SetEnabled false) w).
  { cbn [Model.perform_all fold_left].
    apply (perform_callbacks_disabled calls (perform (SetEnabled false) w)).
    reflexivity. }
  split; [exact H|]. rewrite H.
  destruct w as [e q]. destruct e. destruct group0. reflexivity.
Qed.

End EntryProperties.

(** * The claims at concrete configurations *)

Import Example.

Lemma names_distinct_example : NoDup (condition_names names).
Proof.
  repeat constructor; simpl; intuition discriminate.
Qed.

Ltac floats_differ c :=
  let H := fresh in
  intros H; apply (f_equal (fun x => PrimFloat.ltb x c)) in H;
  vm_compute in H; discriminate H.

Lemma step_entry_built :
  Entry__init__ cpython names epoch (config " IncreasingStep " "1.5:2.0:2.5:3.0" false)
  = Return step_entry.
Proof. vm_compute. reflexivity. Qed.

Lemma superior_entry_built :
  Entry__init__ cpython names epoch (config "SuperiorThan" "5" false)
  = Return superior_entry.
Proof. vm_compute. reflexivity. Qed.

(** C9 at a range entry whose group is switched off: the sample 20 is out
    of the range 0 to 10, and nothing happens. *)
Lemma disabled_group_witness :
  enabled (group (disable range_entry)) = false /\
  check_alarms' 2000 true 20 (world_of (disable range_entry))
  = (Return PyNone, world_of (disable range_entry)).
Proof.
  split; [reflexivity|].
  exact (proj1 (disabled_group_changes_nothing cpython names accept_all
                  2000 true 20 (world_of (disable range_entry)) eq_refl)).
Defined.

(** C7 at a range entry with a timeout of 60 s: after the event of a sample
    at time 2000, a violating sample at 2030 adds nothing and a violating
    sample at 2090 adds the second event. *)
Lemma debounce_witness :
  let w1 := snd (check_alarms' 2000 true 20 (world_of range_entry)) in
  items (sms_queue w1) = [range_event] /\
  check_alarms' 2030 true 30 w1 = (Return PyNone, w1) /\
  List.length (items (sms_queue (snd (check_alarms' 2090 true 30 w1)))) = 2%nat.
Proof.
  assert (Hpv : _pv (entry (world_of range_entry))
                = Some (EpicsPV "SI-13C4:DI-DCCT:Current-Mon")) by reflexivity.
  assert (Hh : handle_condition' 20 (entry (world_of range_entry))
               = (Return (Some range_event), range_entry))
    by (vm_compute; reflexivity).
  assert (Hroom : (List.length (items (sms_queue (world_of range_entry)))
                   < maxsize (sms_queue (world_of range_entry)))%nat)
    by (vm_compute; lia).
  destruct (debounce cpython names accept_all 2000 2030 20 30
              (world_of range_entry) _ Hpv) as [_ Hnear].
  destruct (debounce cpython names accept_all 2000 2090 20 30
              (world_of range_entry) _ Hpv) as [_ Hfar].
  specialize (Hnear _ _ eq_refl eq_refl Hh Hroom).
  specialize (Hfar _ _ eq_refl eq_refl Hh Hroom).
  destruct Hnear as (Hq & _ & Hskip & _).
  destruct Hfar as (_ & _ & _ & Hadd).
  split; [exact Hq|]. split; [exact (Hskip eq_refl true)|].
  unfold check_alarms'.
  erewrite (Hadd eq_refl); [reflexivity | vm_compute; reflexivity | vm_compute; lia].
Defined.

(** C7 as stated fails: with a full queue the debounce does not hold two
    violating samples apart. On the step entry with a timeout of 60 s, the
    sample 2.7 at time 2000 builds an event, which the full queue refuses,
    and [last_event_time] stays at 940; the sample 3.5 at time 2001, one
    second later, is therefore evaluated: it moves [step_level] from 3 to 4
    and builds a second event. Two events are built within the timeout, and
    none is queued. *)
Lemma full_queue_defeats_debounce :
  let w0 := {| entry := step_entry; sms_queue := full_queue |} in
  let w1 := snd (check_alarms' 2000 true 2.7 w0) in
  let w2 := snd (check_alarms' 2001 true 3.5 w1) in
  flt (PrimFloat.sub 2001 2000) (email_timeout step_entry) = true /\
  (exists ev1, fst (handle_condition' 2.7 (entry w0)) = Return (Some ev1)) /\
  fst (check_alarms' 2000 true 2.7 w0) = Return PyNone /\
  step_level (entry w1) = 3 /\
  (exists ev2, fst (handle_condition' 3.5 (entry w1)) = Return (Some ev2)) /\
  fst (check_alarms' 2001 true 3.5 w1) = Return PyNone /\
  step_level (entry w2) = 4 /\
  w2 <> w1 /\
  sms_queue w2 = full_queue.
Proof.
  cbv zeta.
  split; [vm_compute; reflexivity|].
  split; [eexists; vm_compute; reflexivity|].
  split; [vm_compute; reflexivity|].
  split; [vm_compute; reflexivity|].
  split; [eexists; vm_compute; reflexivity|].
  split; [vm_compute; reflexivity|].
  split; [vm_compute; reflexivity|].
  split; [|vm_compute; reflexivity].
  intros H. apply (f_equal (fun w => step_level (entry w))) in H.
  vm_compute in H. discriminate H.
Qed.

(** C1 as stated fails: with a full queue the event is built, the call
    returns normally at time 2000, and [last_event_time] is still 940. *)
Lemma queue_full_keeps_last_event_time :
  handle_condition' 20 range_entry = (Return (Some range_event), range_entry) /\
  check_alarms' 2000 true 20 {| entry := range_entry; sms_queue := full_queue |}
  = (Return PyNone, {| entry := range_entry; sms_queue := full_queue |}) /\
  last_event_time range_entry <> 2000%float.
Proof.
  split; [vm_compute; reflexivity|].
  split; [vm_compute; reflexivity|].
  floats_differ 1000%float.
Qed.

(** C1 amended, at the range entry: with room in the queue the time is
    recorded, with a full queue it is not. *)
Lemma last_event_time_witness :
  last_event_time (entry (snd (check_alarms' 2000 true 20 (world_of range_entry))))
  = 2000%float /\
  last_event_time
    (entry (snd (check_alarms' 2000 true 20
                   {| entry := range_entry; sms_queue := full_queue |})))
  = last_event_time range_entry.
Proof.
  assert (Hh : handle_condition' 20 range_entry
               = (Return (Some range_event), range_entry))
    by (vm_compute; reflexivity).
  split.
  - exact (proj1 (proj2 (last_event_time_follows_the_queue cpython names accept_all
                           2000 20 (world_of range_entry) _ range_event range_entry
                           eq_refl eq_refl eq_refl Hh))).
  - exact (proj1 (proj2 (last_event_time_follows_the_queue cpython names accept_all
                           2000 20 {| entry := range_entry; sms_queue := full_queue |}
                           _ range_event range_entry
                           eq_refl eq_refl eq_refl Hh))).
Defined.

(** C2 at the step entry at its ceiling: the sample 10.0 raises. *)
Lemma ceiling_witness :
  step_level (entry ceiling_world) = 4 /\
  handle_condition' 10 (entry ceiling_world) = (Raise IndexError, entry ceiling_world) /\
  check_alarms' 3000 true 10 ceiling_world = (Raise IndexError, ceiling_world).
Proof.
  split; [reflexivity|].
  destruct (ceiling_raises_IndexError cpython names accept_all names_distinct_example
              3000 10 ceiling_world "SI-13C4:DI-DCCT:Current-Mon"
              eq_refl eq_refl) as [Hh Hc].
  split; [exact Hh|].
  exact (Hc eq_refl eq_refl eq_refl).
Defined.

(** C3 at the entry "superior than 5": the sample 6 raises, the sample 3
    does not. *)
Lemma superior_than_witness :
  handle_condition' 6 superior_entry
  = (Raise (AttributeError "alarm_min"), superior_entry) /\
  handle_condition' 3 superior_entry = (Return None, superior_entry).
Proof.
  split.
  - destruct (superior_than_reads_alarm_min cpython names accept_all
                names_distinct_example epoch 6
                (config "SuperiorThan" "5" false) superior_entry
                eq_refl superior_entry_built)
      as (hi & Hp & _ & _ & Hh).
    vm_compute in Hp. inversion Hp; subst hi. exact Hh.
  - destruct (superior_than_reads_alarm_min cpython names accept_all
                names_distinct_example epoch 3
                (config "SuperiorThan" "5" false) superior_entry
                eq_refl superior_entry_built)
      as (hi & Hp & _ & _ & Hh).
    vm_compute in Hp. inversion Hp; subst hi. exact Hh.
Defined.

(** C4 as stated fails: a parameter that is not a number raises
    [ValueError], which is not [EntryException]. *)
Lemma malformed_number_raises_ValueError :
  Entry__init__ cpython names epoch (config "SuperiorThan" "abc" false)
  = Raise ValueError /\
  ~ (exists msg,
        Entry__init__ cpython names epoch (config "SuperiorThan" "abc" false)
        = Raise (EntryException msg)).
Proof.
  split; [vm_compute; reflexivity|].
  intros [msg H]. vm_compute in H. discriminate H.
Qed.

(** C4 amended, at one configuration of each kind. *)
Lemma bad_configuration_witness :
  (exists x, Entry__init__ cpython names epoch (config "DecreasingStep" "1:2" false)
             = Raise x) /\
  Entry__init__ cpython names epoch (config "OutOfRange" "1:2:3" false)
  = Raise ValueError /\
  (exists x, Entry__init__ cpython names epoch (config "IncreasingStep" "1:3:2" false)
             = Raise x) /\
  (exists x, Entry__init__ cpython names epoch (config "OutOfRange" "10:10" false)
             = Raise x).
Proof.
  split; [|split; [|split]].
  - exact (proj1 (bad_configuration_creates_no_entry cpython names
                    names_distinct_example epoch
                    (config "DecreasingStep" "1:2" false) eq_refl)).
  - exact (proj1 (proj2 (bad_configuration_creates_no_entry cpython names
                           names_distinct_example epoch
                           (config "OutOfRange" "1:2:3" false) eq_refl)) eq_refl).
  - exact (proj1 (bad_configuration_creates_no_entry cpython names
                    names_distinct_example epoch
                    (config "IncreasingStep" "1:3:2" false) eq_refl)).
  - exact (proj1 (bad_configuration_creates_no_entry cpython names
                    names_distinct_example epoch
                    (config "OutOfRange" "10:10" false) eq_refl)).
Defined.

(** C5, what the code does. Evaluation raises to its caller: the step
    entry of the spec, once the sample 3.5 has taken it to level 4, raises
    [IndexError] on the next sample, and the entry "superior than 5" raises
    [AttributeError] on the sample 6. *)
Theorem evaluation_raises_to_the_caller :
  Entry__init__ cpython names epoch (config " IncreasingStep " "1.5:2.0:2.5:3.0" false)
  = Return step_entry /\
  step_level (entry ceiling_world) = 4 /\
  fst (check_alarms' 3000 true 10 ceiling_world) = Raise IndexError /\
  Entry__init__ cpython names epoch (config "SuperiorThan" "5" false)
  = Return superior_entry /\
  fst (check_alarms' 2000 true 6 (world_of superior_entry))
  = Raise (AttributeError "alarm_min").
Proof.
  repeat split; vm_compute; reflexivity.
Qed.

(** C6 at the step entry of the spec. *)
Lemma step_ascent_witness :
  handle_condition' 2.7 step_entry
  = (Return (Some (event_of cpython 2.7 "lower than 1.5mA"
                            (EpicsPV "SI-13C4:DI-DCCT:Current-Mon") step_entry)),
     set_step_level 3 step_entry) /\
  (let w1 := perform cpython names accept_all (Callback 2000 true 2.7)
                     (world_of step_entry) in
   let w2 := perform cpython names accept_all (Callback 3000 true 1.0) w1 in
   step_level (entry w1) = 3 /\
   (exists ev, items (sms_queue w1) = [ev]) /\
   step_level (entry w2) = 0 /\
   items (sms_queue w2) = items (sms_queue w1)).
Proof.
  destruct (step_ascent cpython names accept_all names_distinct_example)
    as [Hup Hex].
  split.
  - destruct (Hup 2.7%float 1.5%float step_entry
                  (EpicsPV "SI-13C4:DI-DCCT:Current-Mon")
                  eq_refl eq_refl eq_refl (conj (Z.le_refl 0) eq_refl)
                  eq_refl eq_refl)
      as (floor & Hf & _ & Hh & _).
    vm_compute in Hf. inversion Hf; subst floor. exact Hh.
  - apply (Hex 2000%float 3000%float (world_of step_entry)
               "SI-13C4:DI-DCCT:Current-Mon");
      try reflexivity.
    vm_compute. lia.
Defined.

(** C8 at the step entry of the spec, through a ceiling, an exception, a
    switch of the group and the dispatcher. *)
Lemma step_level_witness :
  let w := perform_all cpython names accept_all
             [Callback 2000 true 3.5; Callback 3000 true 10; SetEnabled false;
              Dispatch; Callback 4000 true 0.5]
             (world_of step_entry) in
  step_level step_entry = 0 /\
  0 <= step_level (entry w) <= 4.
Proof.
  destruct (step_level_stays_in_range cpython names accept_all
              names_distinct_example epoch
              (config " IncreasingStep " "1.5:2.0:2.5:3.0" false) step_entry
              eq_refl step_entry_built) as (H0 & _ & Hall).
  split; [exact H0|].
  exact (proj1 (Hall empty_queue
                     [Callback 2000 true 3.5; Callback 3000 true 10;
                      SetEnabled false; Dispatch; Callback 4000 true 0.5])).
Defined.

Lemma racing_state_reached :
  run cpython names accept_all [0; 0; 0; 0; 1; 1; 1]%nat
      (start (world_of range_entry) two_calls)
  = Some racing_state.
Proof. vm_compute. reflexivity. Qed.

(** C10 as stated fails: the check of the timeout is not atomic with the
    block. Two callbacks one second apart, with a timeout of 60 s: the
    second thread passes guard 3 while the first holds the lock, and when
    both have finished there are two events on the queue; run one after the
    other, in either order, the same callbacks leave one. *)
Lemma timeout_check_races :
  lock racing_state = Some 0%nat /\
  map t_pc (threads racing_state) = [AtHandle; AtAcquire] /\
  option_map (fun s => List.length (items (sms_queue (shared s))))
             (run cpython names accept_all racing_schedule
                  (start (world_of range_entry) two_calls))
  = Some 2%nat /\
  List.length (items (sms_queue
     (perform_all cpython names accept_all
        [Callback 2000 true 20; Callback 2001 true 30] (world_of range_entry))))
  = 1%nat /\
  List.length (items (sms_queue
     (perform_all cpython names accept_all
        [Callback 2001 true 30; Callback 2000 true 20] (world_of range_entry))))
  = 1%nat.
Proof.
  repeat split; vm_compute; reflexivity.
Qed.

(** C10 amended, at the two racing callbacks: the first thread is alone in
    the block, and the second, which waits for the lock, cannot move. *)
Lemma lock_witness :
  (forall i j ti tj,
      nth_error (threads racing_state) i = Some ti ->
      nth_error (threads racing_state) j = Some tj ->
      holds_lock (t_pc ti) = true ->
      holds_lock (t_pc tj) = true ->
      i = j) /\
  step cpython names accept_all 1 racing_state = None.
Proof.
  split.
  - exact (proj1 (lock_covers_the_mutation cpython names accept_all
                    (world_of range_entry) two_calls
                    [0; 0; 0; 0; 1; 1; 1]%nat racing_state
                    racing_state_reached)).
  - vm_compute. reflexivity.
Defined.

(** * The further properties at concrete configurations *)

Lemma range_entry_built :
  Entry__init__ cpython names epoch (config "OutOfRange" "0:10" false)
  = Return range_entry.
Proof. vm_compute. reflexivity. Qed.

Lemma inferior_entry_built :
  Entry__init__ cpython names epoch (config "InferiorThan" "5" false)
  = Return inferior_entry.
Proof. vm_compute. reflexivity. Qed.

Lemma dummy_entry_built :
  Entry__init__ cpython names epoch (config "OutOfRange" "0:10" true)
  = Return dummy_entry.
Proof. vm_compute. reflexivity. Qed.

Lemma finished_state_reached :
  run cpython names accept_all racing_schedule
      (start (world_of range_entry) two_calls)
  = Some finished_state.
Proof. vm_compute. reflexivity. Qed.

(** X1 at the range configuration "0:10". *)
Lemma sound_configuration_witness :
  exists e,
    Entry__init__ cpython names epoch (config "OutOfRange" "0:10" false) = Return e /\
    _pv e = Some (EpicsPV "SI-13C4:DI-DCCT:Current-Mon") /\
    condition e = "outofrange" /\
    step_level e = 0.
Proof.
  destruct (sound_configuration_creates_the_entry cpython names
              names_distinct_example epoch (config "OutOfRange" "0:10" false)
              eq_refl)
    as (e & He & Hpv & Hc & _ & _ & _ & _ & _ & _ & _ & Hl & _).
  exists e. split; [exact He|]. split; [exact Hpv|]. split; [exact Hc|exact Hl].
Defined.

(** X2 at the range entry. *)
Lemma as_dict_witness :
  fst (as_dict range_entry)
  = Return [("pvname", VStr "SI-13C4:DI-DCCT:Current-Mon");
            ("condition", VStr "outofrange");
            ("alarm_values", VStr "0:10");
            ("unit", VStr "mA");
            ("emails", VStr "control@example.org:operation@example.org");
            ("group", VStr "operators");
            ("warning_message", VStr "Check the beam current");
            ("subject", VStr "Beam current alarm");
            ("email_timeout", VFloat 60)].
Proof.
  rewrite (as_dict_gives_the_configuration cpython names names_distinct_example
             epoch (config "OutOfRange" "0:10" false) range_entry
             range_entry_built).
  reflexivity.
Defined.

(** X3 at the range entry: 20 is out of the range 0 to 10, 7 is in it. *)
Lemma out_of_range_witness :
  handle_condition' 20 range_entry = (Return (Some range_event), range_entry) /\
  handle_condition' 7 range_entry = (Return None, range_entry).
Proof.
  split.
  - destruct (out_of_range_evaluation cpython names accept_all
                names_distinct_example epoch 20
                (config "OutOfRange" "0:10" false) range_entry
                eq_refl range_entry_built)
      as (lo & hi & Hlo & Hhi & _ & Hh).
    vm_compute in Hlo, Hhi. inversion Hlo; inversion Hhi; subst lo hi.
    unfold handle_condition'. rewrite Hh. vm_compute. reflexivity.
  - destruct (out_of_range_evaluation cpython names accept_all
                names_distinct_example epoch 7
                (config "OutOfRange" "0:10" false) range_entry
                eq_refl range_entry_built)
      as (lo & hi & Hlo & Hhi & _ & Hh).
    vm_compute in Hlo, Hhi. inversion Hlo; inversion Hhi; subst lo hi.
    unfold handle_condition'. rewrite Hh. vm_compute. reflexivity.
Defined.

(** X4 at the entry "inferior than 5": 3 alarms, 5 does not. *)
Lemma inferior_than_witness :
  (exists ev, handle_condition' 3 inferior_entry = (Return (Some ev), inferior_entry) /\
              ev_specified_value_message ev = "higher than 5.0mA") /\
  handle_condition' 5 inferior_entry = (Return None, inferior_entry).
Proof.
  split.
  - destruct (inferior_than_evaluation cpython names accept_all
                names_distinct_example epoch 3
                (config "InferiorThan" "5" false) inferior_entry
                eq_refl inferior_entry_built)
      as (lo & Hp & _ & Hh).
    vm_compute in Hp. inversion Hp; subst lo.
    unfold handle_condition'. rewrite Hh.
    eexists. split; vm_compute; reflexivity.
  - destruct (inferior_than_evaluation cpython names accept_all
                names_distinct_example epoch 5
                (config "InferiorThan" "5" false) inferior_entry
                eq_refl inferior_entry_built)
      as (lo & Hp & _ & Hh).
    vm_compute in Hp. inversion Hp; subst lo.
    unfold handle_condition'. rewrite Hh. vm_compute. reflexivity.
Defined.

(** X5 at the range entry: NaN is not in the range, and nothing happens. *)
Lemma nan_sample_witness :
  is_nan nan = true /\
  snd (check_alarms' 2000 true nan (world_of range_entry)) = world_of range_entry.
Proof.
  split; [reflexivity|].
  exact (nan_sample_changes_nothing cpython names accept_all
           2000 true nan (world_of range_entry) eq_refl).
Defined.

(** X7 at the range entry with a full queue: nothing is added, and the
    dispatcher makes room. *)
Lemma queue_witness :
  let w := {| entry := range_entry; sms_queue := full_queue |} in
  (List.length (items (sms_queue
      (perform_all cpython names accept_all
         [Callback 2000 true 20; Dispatch; Callback 2100 true 30] w))) <= 1)%nat.
Proof.
  exact (proj1 (proj1 (queue_is_bounded_and_append_only cpython names accept_all
                         {| entry := range_entry; sms_queue := full_queue |})
                      [Callback 2000 true 20; Dispatch; Callback 2100 true 30]
                      (le_n 1))).
Defined.

(** X8 at the range entry: an alarm leaves the level where it was. *)
Lemma configuration_witness :
  step_level (entry (snd (check_alarms' 2000 true 20 (world_of range_entry))))
  = step_level range_entry.
Proof.
  apply (proj2 (check_alarms_keeps_the_configuration cpython names accept_all
                  2000 true 20 (world_of range_entry))).
  discriminate.
Defined.

(** X9 at the range entry: the sample 20 of a disconnected PV. *)
Lemma disconnected_witness :
  check_alarms' 2000 false 20 (world_of range_entry)
  = (Return PyNone, world_of range_entry).
Proof.
  exact (proj1 (disconnected_pv_changes_nothing cpython names accept_all
                  2000 20 (world_of range_entry) "SI-13C4:DI-DCCT:Current-Mon"
                  eq_refl)).
Defined.

(** X10 at the dummy entry. *)
Lemma trigger_witness :
  trigger cpython names accept_all 2000 true 20 (world_of dummy_entry)
  = (Raise (AttributeError "value"), world_of dummy_entry) /\
  check_alarms' 2000 true 20 (world_of dummy_entry)
  = (Raise (AttributeError "connected"), world_of dummy_entry).
Proof.
  destruct (proj2 (trigger_needs_a_live_pv cpython names accept_all
                     names_distinct_example epoch
                     (config "OutOfRange" "0:10" true) dummy_entry
                     2000 true 20 empty_queue dummy_entry_built) eq_refl)
    as [Ht Hc].
  split; [exact Ht|exact (Hc eq_refl)].
Defined.

(** X11 at the step entry of the spec: 2.7 takes it up, with an event. *)
Lemma level_rises_witness :
  step_level step_entry < step_level (snd (handle_condition' 2.7 step_entry)).
Proof.
  destruct (events_only_when_the_level_rises cpython names accept_all
              names_distinct_example 2.7 step_entry
              (EpicsPV "SI-13C4:DI-DCCT:Current-Mon")
              eq_refl eq_refl eq_refl eq_refl eq_refl
              (conj (Z.le_refl 0) eq_refl))
    as [[H _]|[[H _]|[H _]]].
  - exact H.
  - vm_compute in H. discriminate H.
  - apply (f_equal step_level) in H. vm_compute in H. discriminate H.
Defined.

(** X12 at the step entry of the spec: 2.7 twice. *)
Lemma same_sample_witness :
  let e' := snd (handle_condition' 2.7 step_entry) in
  handle_condition' 2.7 e' = (Return None, e').
Proof.
  apply (same_sample_again_is_silent cpython names accept_all
           names_distinct_example 2.7 step_entry eq_refl eq_refl eq_refl).
  - vm_compute. split; discriminate.
  - vm_compute. reflexivity.
Defined.

(** X13 at the step configuration of the spec. *)
Lemma thresholds_witness :
  step_values step_entry = [1.5; 2; 2.5; 3]%float /\
  increasing (step_values step_entry) = true.
Proof.
  destruct (thresholds_of_a_built_entry cpython names names_distinct_example epoch
              (config " IncreasingStep " "1.5:2.0:2.5:3.0" false) step_entry
              eq_refl step_entry_built)
    as (_ & _ & _ & _ & _ & Hinc).
  split; [reflexivity|]. apply Hinc. reflexivity.
Defined.

(** X14 at the two racing callbacks, when both have finished. *)
Lemma callbacks_finish_witness :
  all_done finished_state /\ lock finished_state = None.
Proof.
  apply (proj2 (callbacks_finish_and_free_the_lock cpython names accept_all
                  (world_of range_entry) two_calls racing_schedule finished_state
                  finished_state_reached)).
  assert (Hlen : List.length (threads finished_state) = 2%nat)
    by (vm_compute; reflexivity).
  intros [|[|i]]; [vm_compute; reflexivity | vm_compute; reflexivity |].
  unfold step.
  assert (Hnone : nth_error (threads finished_state) (S (S i)) = None)
    by (apply nth_error_None; rewrite Hlen; lia).
  rewrite Hnone. reflexivity.
Defined.

(** X15 at a DecreasingStep configuration. *)
Lemma refused_configuration_witness :
  Entry__init__ cpython names epoch (config "DecreasingStep" "1:2" false)
  = Raise (AttributeError "_pv").
Proof.
  exact (refused_configuration_raises_AttributeError cpython names
           names_distinct_example epoch (config "DecreasingStep" "1:2" false)
           eq_refl).
Defined.
